(** * Speech-to-video web client: progress estimation, completion deferral,
      sign-in mapping, playlist reordering and stitched auto-save

    The development embeds the React component [App] of the web client
    (its revision under [src/unnamed/part_000], and the earlier revision under
    [src/web/src/pages/App.tsx], which shares [beginProgress], [endProgress],
    the 401 branch and the completion deferral word for word) as functions on
    an explicit browser state: the component's state and refs, the table of
    registered timers, the requests issued so far and the backend playlist.

    Numbers: JavaScript numbers that carry times and ratios
    ([performance.now()], [expectedMs], [progress]) are modelled as rationals
    [Q]; the rounding of double arithmetic is not modelled, and a division is
    only used where the divisor is positive (in [Q] a division by zero gives
    zero, in JavaScript an infinity or NaN).

    Asynchrony: an [async] function is written as one function of the
    environment's answers (how the fetch settled, what the body parsed to, how
    the preload settled, at which clock value the function resumed) and of the
    timer callbacks that ran while it was suspended at each [await]. *)

From Stdlib Require Import QArith Qminmax Qround Lqa ZArith Lia Sorted.
From stdpp Require Import base list strings pretty.

Open Scope Q_scope.

(** ** Component state *)

(** An entry of the saved-clip list as the backend serves it. [ts] is the
    entry's timestamp key; the client guards against entries without one
    ([c.ts || idx], [if (!c.ts) return]), so it is optional here. *)
Record Clip := {
  ts : option Z;
  url : string;
  note : string
}.

(** [useState] cells and [useRef] cells of [App] that the modelled functions
    read or write. *)
Record App := {
  videoUrl : option string;
  jsonOut : string;
  busy : bool;
  statusMsg : string;
  progress : Q;
  progressTimer : option positive;
  pendingUrl : option string;
  startTsRef : Q;
  expectedMsRef : Q;
  clipCountRef : nat;
  clips : list Clip;
  dragIndex : option nat;
  loginRequired : bool
}.

(** ** Browser: timers and requests *)

Inductive OpKind := Speech | Stitch.

(** The closures that the component hands to [setInterval] / [setTimeout]. *)
Inductive Callback :=
| CbTick                               (* the interval body of beginProgress *)
| CbLinger                             (* the timeout body of endProgress *)
| CbFinish (k : OpKind) (u : string).  (* [finish] of a handler, closed over [url] *)

Record Timer := {
  handle : positive;
  due : Q;
  every : option Q;   (* [Some p] for an interval of period [p] *)
  callback : Callback
}.

Record Request := {
  method : string;
  path : string;
  form : list (string * string)
}.

(** Backend playlist: its entries and the last timestamp it issued. *)
Record Store := {
  entries : list Clip;
  lastTs : Z
}.

(** [API_BASE] is the build-time constant
    [import.meta.env.VITE_API_BASE || '']. *)
Record World := {
  API_BASE : string;
  app : App;
  timers : list Timer;
  nextHandle : positive;
  sent : list Request;
  store : Store
}.

Definition updApp (f : App -> App) (w : World) : World :=
  {| API_BASE := API_BASE w; app := f (app w); timers := timers w;
     nextHandle := nextHandle w; sent := sent w; store := store w |}.

Definition seq (f g : World -> World) : World -> World := fun w => g (f w).
Notation "f >>> g" := (seq f g) (at level 61, left associativity).

(** *** Setters *)

Definition setVideoUrl (v : option string) : World -> World :=
  updApp (fun a =>
    {| videoUrl := v; jsonOut := jsonOut a; busy := busy a;
       statusMsg := statusMsg a; progress := progress a;
       progressTimer := progressTimer a; pendingUrl := pendingUrl a;
       startTsRef := startTsRef a; expectedMsRef := expectedMsRef a;
       clipCountRef := clipCountRef a; clips := clips a;
       dragIndex := dragIndex a; loginRequired := loginRequired a |}).

Definition setJsonOut (v : string) : World -> World :=
  updApp (fun a =>
    {| videoUrl := videoUrl a; jsonOut := v; busy := busy a;
       statusMsg := statusMsg a; progress := progress a;
       progressTimer := progressTimer a; pendingUrl := pendingUrl a;
       startTsRef := startTsRef a; expectedMsRef := expectedMsRef a;
       clipCountRef := clipCountRef a; clips := clips a;
       dragIndex := dragIndex a; loginRequired := loginRequired a |}).

Definition setBusy (v : bool) : World -> World :=
  updApp (fun a =>
    {| videoUrl := videoUrl a; jsonOut := jsonOut a; busy := v;
       statusMsg := statusMsg a; progress := progress a;
       progressTimer := progressTimer a; pendingUrl := pendingUrl a;
       startTsRef := startTsRef a; expectedMsRef := expectedMsRef a;
       clipCountRef := clipCountRef a; clips := clips a;
       dragIndex := dragIndex a; loginRequired := loginRequired a |}).

Definition setStatusMsg (v : string) : World -> World :=
  updApp (fun a =>
    {| videoUrl := videoUrl a; jsonOut := jsonOut a; busy := busy a;
       statusMsg := v; progress := progress a;
       progressTimer := progressTimer a; pendingUrl := pendingUrl a;
       startTsRef := startTsRef a; expectedMsRef := expectedMsRef a;
       clipCountRef := clipCountRef a; clips := clips a;
       dragIndex := dragIndex a; loginRequired := loginRequired a |}).

Definition setProgress (v : Q) : World -> World :=
  updApp (fun a =>
    {| videoUrl := videoUrl a; jsonOut := jsonOut a; busy := busy a;
       statusMsg := statusMsg a; progress := v;
       progressTimer := progressTimer a; pendingUrl := pendingUrl a;
       startTsRef := startTsRef a; expectedMsRef := expectedMsRef a;
       clipCountRef := clipCountRef a; clips := clips a;
       dragIndex := dragIndex a; loginRequired := loginRequired a |}).

Definition setProgressTimer (v : option positive) : World -> World :=
  updApp (fun a =>
    {| videoUrl := videoUrl a; jsonOut := jsonOut a; busy := busy a;
       statusMsg := statusMsg a; progress := progress a;
       progressTimer := v; pendingUrl := pendingUrl a;
       startTsRef := startTsRef a; expectedMsRef := expectedMsRef a;
       clipCountRef := clipCountRef a; clips := clips a;
       dragIndex := dragIndex a; loginRequired := loginRequired a |}).

Definition setPendingUrl (v : option string) : World -> World :=
  updApp (fun a =>
    {| videoUrl := videoUrl a; jsonOut := jsonOut a; busy := busy a;
       statusMsg := statusMsg a; progress := progress a;
       progressTimer := progressTimer a; pendingUrl := v;
       startTsRef := startTsRef a; expectedMsRef := expectedMsRef a;
       clipCountRef := clipCountRef a; clips := clips a;
       dragIndex := dragIndex a; loginRequired := loginRequired a |}).

Definition setStartTs (v : Q) : World -> World :=
  updApp (fun a =>
    {| videoUrl := videoUrl a; jsonOut := jsonOut a; busy := busy a;
       statusMsg := statusMsg a; progress := progress a;
       progressTimer := progressTimer a; pendingUrl := pendingUrl a;
       startTsRef := v; expectedMsRef := expectedMsRef a;
       clipCountRef := clipCountRef a; clips := clips a;
       dragIndex := dragIndex a; loginRequired := loginRequired a |}).

Definition setExpectedMs (v : Q) : World -> World :=
  updApp (fun a =>
    {| videoUrl := videoUrl a; jsonOut := jsonOut a; busy := busy a;
       statusMsg := statusMsg a; progress := progress a;
       progressTimer := progressTimer a; pendingUrl := pendingUrl a;
       startTsRef := startTsRef a; expectedMsRef := v;
       clipCountRef := clipCountRef a; clips := clips a;
       dragIndex := dragIndex a; loginRequired := loginRequired a |}).

(** [setClips]; the effect [useEffect(() => { clipCountRef.current =
    clips.length }, [clips])] runs with the render that follows. *)
Definition setClips (v : list Clip) : World -> World :=
  updApp (fun a =>
    {| videoUrl := videoUrl a; jsonOut := jsonOut a; busy := busy a;
       statusMsg := statusMsg a; progress := progress a;
       progressTimer := progressTimer a; pendingUrl := pendingUrl a;
       startTsRef := startTsRef a; expectedMsRef := expectedMsRef a;
       clipCountRef := length v; clips := v;
       dragIndex := dragIndex a; loginRequired := loginRequired a |}).

Definition setDragIndex (v : option nat) : World -> World :=
  updApp (fun a =>
    {| videoUrl := videoUrl a; jsonOut := jsonOut a; busy := busy a;
       statusMsg := statusMsg a; progress := progress a;
       progressTimer := progressTimer a; pendingUrl := pendingUrl a;
       startTsRef := startTsRef a; expectedMsRef := expectedMsRef a;
       clipCountRef := clipCountRef a; clips := clips a;
       dragIndex := v; loginRequired := loginRequired a |}).

Definition setLoginRequired (v : bool) : World -> World :=
  updApp (fun a =>
    {| videoUrl := videoUrl a; jsonOut := jsonOut a; busy := busy a;
       statusMsg := statusMsg a; progress := progress a;
       progressTimer := progressTimer a; pendingUrl := pendingUrl a;
       startTsRef := startTsRef a; expectedMsRef := expectedMsRef a;
       clipCountRef := clipCountRef a; clips := clips a;
       dragIndex := dragIndex a; loginRequired := v |}).

(** *** Timer table *)

Definition setTimers (ts' : list Timer) (w : World) : World :=
  {| API_BASE := API_BASE w; app := app w; timers := ts';
     nextHandle := nextHandle w; sent := sent w; store := store w |}.

Definition hasHandle (h : positive) (t : Timer) : bool := Pos.eqb (handle t) h.

(** [window.clearInterval(h)] / [window.clearTimeout(h)]. *)
Definition clearTimer (h : positive) (w : World) : World :=
  setTimers (List.filter (fun t => negb (hasHandle h t)) (timers w)) w.

(** Registers a timer and passes the fresh handle to [k]. *)
Definition register (p : option Q) (cb : Callback) (delay now : Q)
    (k : positive -> World -> World) (w : World) : World :=
  let h := nextHandle w in
  k h {| API_BASE := API_BASE w; app := app w;
         timers := timers w ++
           [{| handle := h; due := now + delay; every := p; callback := cb |}];
         nextHandle := Pos.succ h; sent := sent w; store := store w |}.

Definition setInterval (cb : Callback) (period now : Q)
    (k : positive -> World -> World) : World -> World :=
  register (Some period) cb period now k.

Definition setTimeout (cb : Callback) (delay now : Q) : World -> World :=
  register None cb delay now (fun _ w => w).

(** Issuing a request: [fetch(...)] up to its [await]. *)
Definition fetch (r : Request) (w : World) : World :=
  {| API_BASE := API_BASE w; app := app w; timers := timers w;
     nextHandle := nextHandle w; sent := sent w ++ [r]; store := store w |}.

Definition setStore (s : Store) (w : World) : World :=
  {| API_BASE := API_BASE w; app := app w; timers := timers w;
     nextHandle := nextHandle w; sent := sent w; store := s |}.

(** ** Progress estimator *)

Definition clearProgressTimer (w : World) : World :=
  match progressTimer (app w) with
  | Some h => setProgressTimer None (clearTimer h w)
  | None => w
  end.

(** Body of the interval started by [beginProgress], run at clock [now]. *)
Definition tick (now : Q) (w : World) : World :=
  let elapsed := now - startTsRef (app w) in
  let ratio := Qmin (elapsed / expectedMsRef (app w)) 0.995 in
  setProgress (ratio * 100) w.

Definition beginProgress (message : string) (expectedMs now : Q)
    : World -> World :=
  setStatusMsg message >>>
  setProgress 0 >>>
  setStartTs now >>>
  setExpectedMs expectedMs >>>
  clearProgressTimer >>>
  setInterval CbTick 120 now (fun h => setProgressTimer (Some h)).

(** JavaScript truthiness of an optional string ([if (s)]). *)
Definition truthy (o : option string) : bool :=
  match o with
  | Some s => negb (String.eqb s "")
  | None => false
  end.

Definition whenTruthy (o : option string) (k : string -> World -> World)
    : World -> World :=
  fun w => match o with
           | Some s => if truthy o then k s w else w
           | None => w
           end.

Definition endProgress (finalMessage : option string) (now : Q)
    : World -> World :=
  clearProgressTimer >>>
  setProgress 100 >>>
  whenTruthy finalMessage setStatusMsg >>>
  setTimeout CbLinger 1200 now.

(** ** Backend playlist store *)

Module PlaylistStore.

(** Modelled from the spec: the playlist store that answers [/api/clips] is
    backend code of the repository that is not under src/. What marks an
    entry as an auto-saved stitched result is the note "Stitched" that the
    client sends with it. *)
Definition stitched (c : Clip) : bool := String.eqb (note c) "Stitched".

(** Modelled from the spec: [prune(predicate)] of section 4.6 (backend code,
    not under src/) removes the entries the predicate selects and keeps the
    others in their order. *)
Definition prune (p : Clip -> bool) (s : Store) : Store :=
  {| entries := List.filter (fun c => negb (p c)) (entries s);
     lastTs := lastTs s |}.

(** Modelled from the spec: [append(entry)] of section 4.6 (backend code, not
    under src/) issues a fresh timestamp, larger than every one issued
    before, and adds the entry at the end. *)
Definition append (u n : string) (s : Store) : Store :=
  let t := (lastTs s + 1)%Z in
  {| entries := entries s ++ [{| ts := Some t; url := u; note := n |}];
     lastTs := t |}.

(** Modelled from the spec: [list()] of section 4.6 (backend code, not under
    src/) gives the entries in position order. *)
Definition list (s : Store) : list Clip := entries s.

(** Modelled from the spec: the handler of [POST /api/clips] (backend code,
    not under src/; the client only remarks "Backend prunes old stitched
    entries"), with the fields [url] and, when present, [note]. Section 4.6:
    the auto-save of a stitched result prunes the earlier auto-saved
    stitched entries first, then appends. *)
Definition save (u : string) (n : option string) (s : Store) : Store :=
  match n with
  | Some n' =>
      if String.eqb n' "Stitched"
      then append u n' (prune stitched s)
      else append u n' s
  | None => append u "" s
  end.

End PlaylistStore.

(** ** Requests of the client *)

Definition post (p : string) (f : list (string * string)) (w : World) : Request :=
  {| method := "POST"; path := API_BASE w +:+ p; form := f |}.

Definition get (p : string) (w : World) : Request :=
  {| method := "GET"; path := API_BASE w +:+ p; form := [] |}.

(** How the network answers the requests that [saveClipDirect] and the
    auto-save of [finish] issue: [false] is a rejected fetch (or a body that
    does not parse). *)
Record Net := {
  postOk : bool;
  listOk : bool;
  relistOk : bool
}.

(** A function body that either runs to its end or throws; the state
    reached is kept in both cases. *)
Inductive Outcome :=
| Returned (w : World)
| Thrown (w : World).

Definition worldOf (o : Outcome) : World :=
  match o with Returned w | Thrown w => w end.

(** [const list = await fetch(`${API_BASE}/api/clips`).then(r => r.json());
    setClips(list)] *)
Definition refreshClips (ok : bool) (w : World) : Outcome :=
  let w := fetch (get "/api/clips" w) w in
  if ok then Returned (setClips (PlaylistStore.list (store w)) w)
  else Thrown w.

Definition saveClipDirect (net : Net) (u : string) (n : option string)
    (w : World) : Outcome :=
  let body := [("url", u)] ++
              (if truthy n then [("note", default "" n)] else []) in
  let w := fetch (post "/api/clips" body w) w in
  if postOk net then
    let n' := if truthy n then n else None in
    refreshClips (listOk net) (setStore (PlaylistStore.save u n' (store w)) w)
  else Thrown w.

(** The two revisions of the component. *)
Inductive Revision :=
| Unnamed   (* src/unnamed/part_000 *)
| Pages.    (* src/web/src/pages/App.tsx *)

(** The immediately invoked [async] function at the end of the stitch
    handler's [finish]: save, list again, and swallow whatever is thrown.
    Its awaits are collapsed: no other event runs between its requests. *)
Definition autoSave (net : Net) (u : string) (w : World) : World :=
  match saveClipDirect net u (Some "Stitched") w with
  | Returned w1 => worldOf (refreshClips (relistOk net) w1)
  | Thrown w1 => w1
  end.

Definition finalMessage (k : OpKind) : string :=
  match k with
  | Speech => "Ready"
  | Stitch => "Stitching complete"
  end.

(** [finish] of [handleSpeechToVideo] and of [handleStitchSaved]. *)
Definition finish (rev : Revision) (k : OpKind) (u : string) (net : Net)
    (now : Q) : World -> World :=
  setVideoUrl (Some u) >>>
  setPendingUrl None >>>
  endProgress (Some (finalMessage k)) now >>>
  match rev, k with
  | Unnamed, Stitch => autoSave net u
  | _, _ => fun w => w
  end.

(** ** Running timers *)

Definition runCallback (cb : Callback) (rev : Revision) (net : Net) (now : Q)
    : World -> World :=
  match cb with
  | CbTick => tick now
  | CbLinger => setStatusMsg "" >>> setProgress 0
  | CbFinish k u => finish rev k u net now
  end.

Definition rearm (h : positive) (next : Q) (w : World) : World :=
  setTimers
    (map (fun t => if hasHandle h t
                   then {| handle := handle t; due := next;
                           every := every t; callback := callback t |}
                   else t)
         (timers w)) w.

(** One timer event, chosen by the browser: which handle, at which clock
    value, and how the network answers what the callback requests. *)
Record Firing := {
  which : positive;
  at_ : Q;
  net_ : Net
}.

(** A timer only runs when it is still registered and due; a timeout is
    removed before its callback runs, an interval is armed again. *)
Definition fire (rev : Revision) (f : Firing) (w : World) : World :=
  match List.find (hasHandle (which f)) (timers w) with
  | None => w
  | Some t =>
      if Qle_bool (due t) (at_ f) then
        let w' := match every t with
                  | Some p => rearm (which f) (at_ f + p) w
                  | None => clearTimer (which f) w
                  end in
        runCallback (callback t) rev (net_ f) (at_ f) w'
      else w
  end.

Definition run (rev : Revision) (fs : list Firing) (w : World) : World :=
  fold_left (fun w f => fire rev f w) fs w.

(** The values of [progress] after each event of a schedule. *)
Fixpoint progressTrace (rev : Revision) (fs : list Firing) (w : World)
    : list Q :=
  match fs with
  | [] => []
  | f :: fs' =>
      let w' := fire rev f w in
      progress (app w') :: progressTrace rev fs' w'
  end.

(** ** The two long-running handlers *)

(** The parsed body of a response, [Record<string, any>]: the fields the
    handlers read, and [json], the text [JSON.stringify(data, null, 2)]
    gives for it. *)
Record ApiResult := {
  video_url : option string;
  success : bool;
  stitched_url : option string;
  json : string
}.

(** How [await fetch(...)] settles; [body = None] is a body on which
    [resp.json()] rejects. *)
Inductive Fetched :=
| NetworkError
| Response (status : Z) (body : option ApiResult).

(** How the awaited preload ([preloadWithFallback(url, 15000)] in the
    unnamed revision, [preloadVideo(url)] in the pages revision) settles.
    [Promise.race] settles as its first settled member does, so a video
    [error] event before the fallback delay rejects the race as well. *)
Inductive Preload :=
| Loaded
| LoadFailed.

(** One run of a handler whose suspensions are disturbed by timers only: the
    clock values it reads, how its awaits settle, and the timers that the
    browser runs during each await. A run during whose first await another
    handler starts is put together from the cut handlers and [amid]
    below. *)
Record OpEnv := {
  startedAt : Q;                 (* performance.now() in beginProgress *)
  whileFetching : list Firing;   (* timers run during [await fetch] *)
  fetched : Fetched;
  whileParsing : list Firing;    (* ... during [await resp.json()] *)
  whilePreloading : list Firing; (* ... during the preload *)
  preloaded : Preload;
  resumedAt : Q;                 (* performance.now() after the preload *)
  answers : Net                  (* answers to what [finish] requests *)
}.

Definition Qgtb (a b : Q) : bool := negb (Qle_bool a b).

(** The tail of both success paths: present now, or after the rest of the
    calibrated time. *)
Definition complete (rev : Revision) (k : OpKind) (u : string) (net : Net)
    (now : Q) (w : World) : World :=
  let elapsed := now - startTsRef (app w) in
  let remaining := Qmax 0 (expectedMsRef (app w) - elapsed) in
  if Qgtb remaining 0
  then setTimeout (CbFinish k u) remaining now w
  else finish rev k u net now w.

(** The failure branches: [clearProgressTimer(); setProgress(0);
    setStatusMsg(m)]. *)
Definition giveUp (m : string) : World -> World :=
  clearProgressTimer >>> setProgress 0 >>> setStatusMsg m.

Definition signInRequired : World -> World :=
  setLoginRequired true >>>
  clearProgressTimer >>>
  setProgress 0 >>>
  setStatusMsg "Sign in required to continue." >>>
  setBusy false.

(** [try { ... } finally { setBusy(false) }] around a handler body. *)
Definition finally (o : Outcome) : Outcome :=
  match o with
  | Returned w => Returned (setBusy false w)
  | Thrown w => Thrown (setBusy false w)
  end.

(** What the unnamed revision catches around [fetch] and [resp.json()], the
    pages revision lets escape. *)
Definition caught (rev : Revision) (w : World) : Outcome :=
  match rev with
  | Unnamed => Returned (giveUp "Server restarted. Please retry." w)
  | Pages => Thrown w
  end.

Definition handleSpeechToVideo (rev : Revision) (file : string)
    (env : OpEnv) (w0 : World) : Outcome :=
  let w := setBusy true w0 in
  finally
    (let w := beginProgress "Processing audio…" 120000 (startedAt env) w in
     let w := fetch (post "/api/speech-to-video" [("audio", file)] w0) w in
     let w := run rev (whileFetching env) w in
     match fetched env with
     | NetworkError => caught rev w
     | Response status body =>
         if (status =? 401)%Z then Returned (signInRequired w)
         else
           let w := run rev (whileParsing env) w in
           match body with
           | None => caught rev w
           | Some data =>
               let w := setJsonOut (json data) w in
               if truthy (video_url data) then
                 let u := default "" (video_url data) in
                 let w := setStatusMsg "Preparing video…" w in
                 let w := setPendingUrl (Some u) w in
                 let w := run rev (whilePreloading env) w in
                 match preloaded env with
                 | LoadFailed => Thrown w
                 | Loaded =>
                     Returned
                       (complete rev Speech u (answers env) (resumedAt env) w)
                 end
               else Returned (giveUp "No video URL returned" w)
           end
     end).

(** [45_000 * Math.max(1, Math.ceil(clipsCount / 2))] *)
Definition stitchExpected (clipsCount : nat) : Q :=
  45000 * Qmax 1 (inject_Z (Qceiling (inject_Z (Z.of_nat clipsCount) / 2))).

Definition stitchedUrl (rev : Revision) (data : ApiResult) (w : World)
    : string :=
  match rev with
  | Unnamed =>
      let stitched := if truthy (stitched_url data)
                      then default "" (stitched_url data) else "" in
      if truthy (Some stitched) then stitched
      else API_BASE w +:+ "/api/stitched"
  | Pages => API_BASE w +:+ "/api/stitched"
  end.

(** [clipCountRef.current > 0 ? clipCountRef.current : clips.length] *)
Definition clipsCount (w : World) : nat :=
  if (0 <? clipCountRef (app w))%nat
  then clipCountRef (app w)
  else length (clips (app w)).

(** [confirmed] is the answer to [window.confirm]. *)
Definition handleStitchSaved (rev : Revision) (confirmed : bool)
    (env : OpEnv) (w0 : World) : Outcome :=
  if negb confirmed then Returned w0
  else
    let w := setBusy true w0 in
    finally
      (let w := beginProgress "Stitching saved clips…"
                  (stitchExpected (clipsCount w0)) (startedAt env) w in
       let w := fetch (post "/api/stitch" [("use_saved", "true")] w0) w in
       let w := run rev (whileFetching env) w in
       match fetched env with
       | NetworkError => caught rev w
       | Response status body =>
           if (status =? 401)%Z then Returned (signInRequired w)
           else
             let w := run rev (whileParsing env) w in
             match body with
             | None => caught rev w
             | Some data =>
                 let w := setJsonOut (json data) w in
                 if success data then
                   let u := stitchedUrl rev data w0 in
                   let w := setStatusMsg "Preparing video…" w in
                   let w := setPendingUrl (Some u) w in
                   let w := run rev (whilePreloading env) w in
                   match preloaded env with
                   | LoadFailed => Thrown w
                   | Loaded =>
                       Returned
                         (complete rev Stitch u (answers env) (resumedAt env) w)
                   end
                 else Returned (giveUp "Stitching failed" w)
             end
       end).

(** ** The handlers, cut at their first await *)

(** What a handler runs before its [await fetch(...)], at clock [now]. *)
Definition speechBegins (file : string) (now : Q) (w0 : World) : World :=
  fetch (post "/api/speech-to-video" [("audio", file)] w0)
    (beginProgress "Processing audio…" 120000 now (setBusy true w0)).

Definition stitchBegins (now : Q) (w0 : World) : World :=
  fetch (post "/api/stitch" [("use_saved", "true")] w0)
    (beginProgress "Stitching saved clips…" (stitchExpected (clipsCount w0))
       now (setBusy true w0)).

(** What [handleSpeechToVideo] runs from the answer of its fetch on, in the
    state [w] the page is in by then. *)
Definition speechResumes (rev : Revision) (env : OpEnv) (w : World)
    : Outcome :=
  finally
    (match fetched env with
     | NetworkError => caught rev w
     | Response status body =>
         if (status =? 401)%Z then Returned (signInRequired w)
         else
           let w := run rev (whileParsing env) w in
           match body with
           | None => caught rev w
           | Some data =>
               let w := setJsonOut (json data) w in
               if truthy (video_url data) then
                 let u := default "" (video_url data) in
                 let w := setStatusMsg "Preparing video…" w in
                 let w := setPendingUrl (Some u) w in
                 let w := run rev (whilePreloading env) w in
                 match preloaded env with
                 | LoadFailed => Thrown w
                 | Loaded =>
                     Returned
                       (complete rev Speech u (answers env) (resumedAt env) w)
                 end
               else Returned (giveUp "No video URL returned" w)
           end
     end).

(** The same for [handleStitchSaved]; [w0] is the state it started in. *)
Definition stitchResumes (rev : Revision) (w0 : World) (env : OpEnv)
    (w : World) : Outcome :=
  finally
    (match fetched env with
     | NetworkError => caught rev w
     | Response status body =>
         if (status =? 401)%Z then Returned (signInRequired w)
         else
           let w := run rev (whileParsing env) w in
           match body with
           | None => caught rev w
           | Some data =>
               let w := setJsonOut (json data) w in
               if success data then
                 let u := stitchedUrl rev data w0 in
                 let w := setStatusMsg "Preparing video…" w in
                 let w := setPendingUrl (Some u) w in
                 let w := run rev (whilePreloading env) w in
                 match preloaded env with
                 | LoadFailed => Thrown w
                 | Loaded =>
                     Returned
                       (complete rev Stitch u (answers env) (resumedAt env) w)
                 end
               else Returned (giveUp "Stitching failed" w)
           end
     end).

(** Among what the event loop can run while a handler is suspended at its
    fetch: a timer, and the beginning of a generation. "Stop Recording" is
    never disabled and [confirmProceed] does not look at [busy], so a
    recording opened before a stitch can be submitted while the stitch is
    awaited. *)
Inductive Event :=
| TimerEvent (f : Firing)
| GenerationBegins (file : string) (now : Q).

Definition occur (rev : Revision) (ev : Event) (w : World) : World :=
  match ev with
  | TimerEvent f => fire rev f w
  | GenerationBegins file now => speechBegins file now w
  end.

Definition amid (rev : Revision) (evs : list Event) (w : World) : World :=
  fold_left (fun w ev => occur rev ev w) evs w.

(** ** Reordering the saved clips by drag and drop *)

(** [list.splice(j, 0, x)]: insert before index [j], at the end when [j]
    is past it. *)
Definition insertAt {A} (j : nat) (x : A) (l : list A) : list A :=
  take j l ++ x :: drop j l.

(** Truthiness of a timestamp: present and not zero. *)
Definition truthyTs (t : option Z) : bool :=
  match t with
  | Some z => negb (z =? 0)%Z
  | None => false
  end.

(** [newList.map(x => x.ts).filter(Boolean)] *)
Definition orderOf (l : list Clip) : list Z :=
  omap (fun c => if truthyTs (ts c) then ts c else None) l.

(** [... .join(',')] *)
Definition orderField (l : list Clip) : string :=
  String.concat "," (map pretty (orderOf l)).

Definition reorderRequest (l : list Clip) (w : World) : Request :=
  post "/api/clips/reorder" [("order", orderField l)] w.

(** [onDrop] of the row at index [idx]. When [dragIndex] is past the end of
    the list the first splice removes nothing, [moved] is [undefined] and is
    spliced in; reading [x.ts] of it throws and so does the next render:
    that case is [None]. *)
Definition onDrop (idx : nat) (w : World) : option World :=
  match dragIndex (app w) with
  | None => Some w
  | Some i =>
      if (i =? idx)%nat then Some w
      else
        match clips (app w) !! i with
        | Some moved =>
            let newList := insertAt idx moved (delete i (clips (app w))) in
            let w := setClips newList w in
            let w := setDragIndex None w in
            Some (fetch (reorderRequest newList w) w)
        | None => None
        end
  end.

Definition onDragStart (idx : nat) : World -> World :=
  setDragIndex (Some idx).

(** ** Segment planner *)

Module SegmentPlanner.

Record SegmentSpec := {
  index : nat;
  duration : Z
}.

Inductive PlanError := InvalidDuration.

(** [ceil(D / C)] *)
Definition ceilDiv (D C : Z) : Z := Qceiling (inject_Z D / inject_Z C).

(** Modelled from the spec: the segment planner is backend code of the
    repository that is not under src/. The default split of [rest] seconds
    over [n] segments is the one of the end-to-end scenario of section 8
    ([D] = 25, [C] = 10 gives 10, 10, 5): every segment has the ceiling
    length and the last one takes what is left. Durations are whole
    seconds. *)
Fixpoint segments (n i : nat) (rest C : Z) : list SegmentSpec :=
  match n with
  | O => []
  | S n' =>
      let d := Z.min rest C in
      {| index := i; duration := d |} :: segments n' (S i) (rest - d) C
  end.

(** Modelled from the spec: the segment planner is backend code of the
    repository that is not under src/. Section 4.2: [D <= 0] fails with
    [InvalidDuration]; [D <= C] gives the single segment [D]; otherwise there
    are [ceil(D / C)] segments. *)
Definition plan (D C : Z) : PlanError + list SegmentSpec :=
  if (D <=? 0)%Z then inl InvalidDuration
  else if (D <=? C)%Z then inr [{| index := 0; duration := D |}]
  else inr (segments (Z.to_nat (ceilDiv D C)) 0 D C).

(** The sum of the durations of a plan. *)
Definition total (p : list SegmentSpec) : Z :=
  fold_right (fun s acc => (duration s + acc)%Z) 0%Z p.

End SegmentPlanner.

(** ** Stitcher *)

Module Stitcher.

Inductive Capability :=
| Available
| Unavailable (reason : string).

Inductive StitchError :=
| NoSegments
| Timeout.

Inductive Stitched :=
| Composed (artifact : string)       (* the one composed artifact *)
| FirstSegment (artifact : string)   (* reduced scope: segment 1 alone *)
| Failed (e : StitchError).

(** What the stitcher is given: the capability decided at startup, how each
    download ends ([None]: it exceeded its bound), and what composing the
    downloaded files gives ([None]: composition failed). *)
Record Env := {
  capability : Capability;
  download : string -> option string;
  compose : list string -> option string
}.

(** Modelled from the spec: the stitcher is backend code of the repository
    that is not under src/. Section 4.5 and 7: the artifacts are downloaded
    and composed in index order into one artifact; when the composition
    capability is unavailable or the composition fails the first segment's
    artifact is returned alone; a download that exceeds its bound is a
    [Timeout] and fails the request. *)
Definition stitch (env : Env) (segs : list string) : Stitched :=
  match segs with
  | [] => Failed NoSegments
  | first :: _ =>
      match capability env with
      | Unavailable _ => FirstSegment first
      | Available =>
          match mapM (download env) segs with
          | None => Failed Timeout
          | Some files =>
              match compose env files with
              | Some out => Composed out
              | None => FirstSegment first
              end
          end
      end
  end.

End Stitcher.

(** * More of the client *)

(** ** Preloading the video *)

Module Preloading.

(** What can happen to the detached [video] element of [preloadVideo] and to
    the two timeouts around it. *)
Inductive Happening :=
| Canplaythrough
| Loadeddata
| Canplay
| Error
| Loadedmetadata
| OtherMedia       (* a media event that has no listener *)
| TimeoutFires     (* the timeout [to] of [preloadVideo] *)
| FallbackFires.   (* the timeout of [preloadWithFallback] *)

#[global] Instance Happening_eq_dec : EqDecision Happening.
Proof. solve_decision. Defined.

(** The element, the closure variable [done], the [once] listeners still
    attached, whether [to] is still registered, and the promise ([None]
    while it is pending). *)
Record Video := {
  src : option string;
  done : bool;
  listeners : list Happening;
  timeoutArmed : bool;
  settled : option Preload
}.

(** [v.removeAttribute('src'); try { v.load() } catch (_) {}] *)
Definition cleanup (v : Video) : Video :=
  {| src := None; done := done v; listeners := listeners v;
     timeoutArmed := timeoutArmed v; settled := settled v |}.

Definition setDone (v : Video) : Video :=
  {| src := src v; done := true; listeners := listeners v;
     timeoutArmed := timeoutArmed v; settled := settled v |}.

(** [resolve()] / [reject(...)]: a settled promise stays as it is. *)
Definition settle (o : Preload) (v : Video) : Video :=
  {| src := src v; done := done v; listeners := listeners v;
     timeoutArmed := timeoutArmed v;
     settled := match settled v with
                | None => Some o
                | Some o' => Some o'
                end |}.

Definition onReady (v : Video) : Video :=
  if done v then v else settle Loaded (cleanup (setDone v)).

Definition onError (v : Video) : Video :=
  if done v then v else settle LoadFailed (cleanup (setDone v)).

(** [window.clearTimeout(to)], and [to] having fired. *)
Definition disarm (v : Video) : Video :=
  {| src := src v; done := done v; listeners := listeners v;
     timeoutArmed := false; settled := settled v |}.

(** A [once] listener is removed when its event is dispatched. *)
Definition unlisten (h : Happening) (v : Video) : Video :=
  {| src := src v; done := done v;
     listeners := List.filter (fun x => negb (bool_decide (x = h))) (listeners v);
     timeoutArmed := timeoutArmed v; settled := settled v |}.

Definition preloadVideo (url : string) : Video :=
  {| src := Some url; done := false;
     listeners := [Canplaythrough; Loadeddata; Canplay; Error; Loadedmetadata];
     timeoutArmed := true; settled := None |}.

Definition dispatch (h : Happening) (v : Video) : Video :=
  match h with
  | TimeoutFires => if timeoutArmed v then onError (disarm v) else v
  | FallbackFires => v
  | _ =>
      if bool_decide (h ∈ listeners v) then
        let v := unlisten h v in
        match h with
        | Error => onError v
        | Loadedmetadata => if done v then v else onReady (disarm v)
        | _ => onReady v
        end
      else v
  end.

(** [Promise.race([preloadVideo(url), new Promise(resolve =>
    setTimeout(resolve, fallbackMs))])]: the race settles as the first of
    its two members that settles. *)
Record Race := {
  video : Video;
  fallbackArmed : bool;
  raced : option Preload
}.

Definition preloadWithFallback (url : string) : Race :=
  {| video := preloadVideo url; fallbackArmed := true; raced := None |}.

Definition firstOf (a b : option Preload) : option Preload :=
  match a with
  | Some o => Some o
  | None => b
  end.

Definition happen (h : Happening) (r : Race) : Race :=
  match h with
  | FallbackFires =>
      if fallbackArmed r
      then {| video := video r; fallbackArmed := false;
              raced := firstOf (raced r) (Some Loaded) |}
      else r
  | _ =>
      let v := dispatch h (video r) in
      {| video := v; fallbackArmed := fallbackArmed r;
         raced := firstOf (raced r) (settled v) |}
  end.

(** What a happening decides for a promise that is still pending. *)
Definition verdict (h : Happening) : option Preload :=
  match h with
  | Canplaythrough | Loadeddata | Canplay | Loadedmetadata => Some Loaded
  | Error | TimeoutFires => Some LoadFailed
  | OtherMedia | FallbackFires => None
  end.

Definition raceVerdict (h : Happening) : option Preload :=
  match h with
  | FallbackFires => Some Loaded
  | _ => verdict h
  end.

(** The first decision in a sequence of happenings. *)
Fixpoint firstVerdict (f : Happening -> option Preload) (hs : list Happening)
    : option Preload :=
  match hs with
  | [] => None
  | h :: hs' => firstOf (f h) (firstVerdict f hs')
  end.

(** The element after a sequence of happenings, in their order. *)
Definition dispatchAll (hs : list Happening) (v : Video) : Video :=
  fold_left (fun v h => dispatch h v) hs v.

Definition happenAll (hs : list Happening) (r : Race) : Race :=
  fold_left (fun r h => happen h r) hs r.

End Preloading.

(** ** What the progress panel shows *)

(** [Math.round(progress)]: the nearest integer, a half rounded up. *)
Definition percentLabel (w : World) : Z :=
  Qfloor (progress (app w) + (1 # 2)).

(** ** Saving the clip shown *)

(** [handleSaveLastClip(note)]; the button calls it with the empty note. *)
Definition handleSaveLastClip (net : Net) (n : option string) (w : World)
    : Outcome :=
  if negb (truthy (videoUrl (app w))) then Returned w
  else
    let u := default "" (videoUrl (app w)) in
    let body := [("url", u)] ++
                (if truthy n then [("note", default "" n)] else []) in
    let w := fetch (post "/api/clips" body w) w in
    if postOk net then
      let n' := if truthy n then n else None in
      refreshClips (listOk net) (setStore (PlaylistStore.save u n' (store w)) w)
    else Thrown w.

(** ** Session, dialog and the page as a whole *)

(** The body of [/api/auth/session] as far as it is read ([j?.x]): absent
    numbers count as 0. *)
Record SessionJson := {
  j_authenticated : bool;
  j_user : option string;
  j_usage_count : option Z;
  j_limit : option Z
}.

Record Auth := {
  authenticated : bool;
  user : option string;
  usage_count : Z;
  limit : Z
}.

(** The state cells of [App] that the functions below use, around the
    ones of [World]. *)
Record Page := {
  world : World;
  auth : option Auth;
  confirmOpen : bool;
  pendingAudio : option string;
  pendingTranscript : string
}.

Definition onWorld (f : World -> World) (p : Page) : Page :=
  {| world := f (world p); auth := auth p; confirmOpen := confirmOpen p;
     pendingAudio := pendingAudio p;
     pendingTranscript := pendingTranscript p |}.

Definition setAuth (a : option Auth) (p : Page) : Page :=
  {| world := world p; auth := a; confirmOpen := confirmOpen p;
     pendingAudio := pendingAudio p;
     pendingTranscript := pendingTranscript p |}.

Definition setConfirmOpen (b : bool) (p : Page) : Page :=
  {| world := world p; auth := auth p; confirmOpen := b;
     pendingAudio := pendingAudio p;
     pendingTranscript := pendingTranscript p |}.

Definition setPendingAudio (f : option string) (p : Page) : Page :=
  {| world := world p; auth := auth p; confirmOpen := confirmOpen p;
     pendingAudio := f; pendingTranscript := pendingTranscript p |}.

Definition setPendingTranscript (t : string) (p : Page) : Page :=
  {| world := world p; auth := auth p; confirmOpen := confirmOpen p;
     pendingAudio := pendingAudio p; pendingTranscript := t |}.

(** [fetchSession()]; [ans = None] is a rejected fetch or a body that does
    not parse. *)
Definition fetchSession (ans : option SessionJson) (p : Page) : Page :=
  let p := onWorld (fun w => fetch (get "/api/auth/session" w) w) p in
  match ans with
  | Some j =>
      let p := setAuth (Some {| authenticated := j_authenticated j;
                                user := j_user j;
                                usage_count := default 0%Z (j_usage_count j);
                                limit := default 0%Z (j_limit j) |}) p in
      if j_authenticated j then onWorld (setLoginRequired false) p else p
  | None => setAuth None p
  end.

(** [signOut()]: whatever becomes of the logout request, the session is
    fetched again. *)
Definition signOut (ans : option SessionJson) (p : Page) : Page :=
  let p := onWorld (fun w => fetch (post "/api/auth/logout" [] w) w) p in
  fetchSession ans p.

(** [rec.onstop]: the recording becomes the pending audio and the dialog
    opens; [text] is the transcript when the transcription answers with
    [success] and a text. The awaits of the transcription are collapsed. *)
Definition recorderStopped (file : string) (text : option string) (p : Page)
    : Page :=
  let p := setPendingAudio (Some file) p in
  let p := setPendingTranscript "" p in
  let p := setConfirmOpen true p in
  let p := onWorld (fun w =>
             fetch (post "/api/transcribe" [("audio", file)] w) w) p in
  if truthy text then setPendingTranscript (default "" text) p else p.

(** [confirmProceed()]; a rejection of the handler is not handled and
    changes nothing more. *)
Definition confirmProceed (rev : Revision) (env : OpEnv) (p : Page) : Page :=
  let f := pendingAudio p in
  let p := setConfirmOpen false p in
  match f with
  | Some file =>
      let p := setPendingAudio None p in
      onWorld (fun w => worldOf (handleSpeechToVideo rev file env w)) p
  | None => p
  end.

Definition confirmCancel (p : Page) : Page :=
  let p := setPendingAudio None p in
  let p := setPendingTranscript "" p in
  let p := setConfirmOpen false p in
  onWorld (setStatusMsg "") p.

(** ** The remaining handlers of the list *)

Definition del (p : string) (w : World) : Request :=
  {| method := "DELETE"; path := API_BASE w +:+ p; form := [] |}.

(** How the backend answers a request that changes the playlist: the fetch
    rejects, or it is answered, [ok] or not, and the backend then holds the
    playlist [after]. *)
Inductive Changed :=
| Rejected
| Answered (ok : bool) (after : Store).

(** [handleClearClips()]: nothing is caught, and [resp.ok] is not read. *)
Definition handleClearClips (ans : Changed) (listOk : bool) (w : World)
    : Outcome :=
  let w := fetch (del "/api/clips" w) w in
  match ans with
  | Rejected => Thrown w
  | Answered _ after => refreshClips listOk (setStore after w)
  end.

(** [onClick] of the delete button of the row at index [idx]:
    [if (!c.ts) return; try { ...; if (r.ok) { ... setClips(list) } }
    catch {}]. *)
Definition deleteClip (idx : nat) (ans : Changed) (listOk : bool) (w : World)
    : World :=
  match clips (app w) !! idx with
  | None => w
  | Some c =>
      if truthyTs (ts c) then
        let t := default 0%Z (ts c) in
        let w := fetch (del ("/api/clips/" +:+ pretty t) w) w in
        match ans with
        | Rejected => w
        | Answered ok after =>
            let w := setStore after w in
            if ok then worldOf (refreshClips listOk w) else w
        end
      else w
  end.

(** [onClick] of the row at index [idx]: [setVideoUrl(c.url)]. *)
Definition playClip (idx : nat) (w : World) : World :=
  match clips (app w) !! idx with
  | Some c => setVideoUrl (Some (url c)) w
  | None => w
  end.

(** The effect run when the component is mounted: the list is fetched,
    [setClips([])] when that fails, and the unnamed revision fetches the
    session. *)
Definition mount (rev : Revision) (listOk : bool) (ans : option SessionJson)
    (p : Page) : Page :=
  let p := onWorld (fun w =>
             let w := fetch (get "/api/clips" w) w in
             setClips (if listOk then PlaylistStore.list (store w) else []) w)
             p in
  match rev with
  | Unnamed => fetchSession ans p
  | Pages => p
  end.

(** What the user and the browser can do to the page. An [async] handler is
    taken as a whole: the timers that run while it is suspended are part of
    its environment ([OpEnv]), and no other handler starts in between. *)
Inductive Action :=
| Mounts (listOk : bool) (ans : option SessionJson)
| RecorderStops (file : string) (text : option string)
| Proceeds (env : OpEnv)
| Cancels
| Stitches (confirmed : bool) (env : OpEnv)
| TimerRuns (f : Firing)
| SessionFetched (ans : option SessionJson)
| SignsOut (ans : option SessionJson)
| SavesLastClip (net : Net)
| ClearsClips (ans : Changed) (listOk : bool)
| Deletes (idx : nat) (ans : Changed) (listOk : bool)
| Plays (idx : nat)
| VideoFails
| DragStarts (idx : nat)
| DragEnds
| Drops (idx : nat).

(** The pages revision has no session, no rows to click, delete or drag. *)
Definition offered (rev : Revision) (a : Action) : bool :=
  match rev, a with
  | Pages, (SessionFetched _ | SignsOut _ | Deletes _ _ _ | Plays _
            | DragStarts _ | DragEnds | Drops _) => false
  | _, _ => true
  end.

(** One action; [None] when the component has thrown while rendering. *)
Definition perform (rev : Revision) (a : Action) (p : Page) : option Page :=
  match a with
  | Mounts listOk ans => Some (mount rev listOk ans p)
  | RecorderStops file text => Some (recorderStopped file text p)
  | Proceeds env => Some (confirmProceed rev env p)
  | Cancels => Some (confirmCancel p)
  | Stitches confirmed env =>
      Some (onWorld (fun w => worldOf (handleStitchSaved rev confirmed env w)) p)
  | TimerRuns f => Some (onWorld (fire rev f) p)
  | SessionFetched ans => Some (fetchSession ans p)
  | SignsOut ans => Some (signOut ans p)
  | SavesLastClip net =>
      Some (onWorld (fun w => worldOf (handleSaveLastClip net (Some "") w)) p)
  | ClearsClips ans listOk =>
      Some (onWorld (fun w => worldOf (handleClearClips ans listOk w)) p)
  | Deletes idx ans listOk => Some (onWorld (deleteClip idx ans listOk) p)
  | Plays idx => Some (onWorld (playClip idx) p)
  | VideoFails => Some (onWorld (setStatusMsg "Video failed to load") p)
  | DragStarts idx => Some (onWorld (onDragStart idx) p)
  | DragEnds => Some (onWorld (setDragIndex None) p)
  | Drops idx =>
      match onDrop idx (world p) with
      | Some w => Some (onWorld (fun _ => w) p)
      | None => None
      end
  end.

Fixpoint performAll (rev : Revision) (acts : list Action) (p : Page)
    : option Page :=
  match acts with
  | [] => Some p
  | a :: acts' =>
      match perform rev a p with
      | Some p' => performAll rev acts' p'
      | None => None
      end
  end.

(** ** The microphone waveform *)

Module MicVisualizer.

(** The vertices that [draw] passes to [moveTo] / [lineTo] for the samples
    [data] of [getByteTimeDomainData], from the abscissa [x] on:
    [v = dataArray[i] / 128.0; y = (v * height) / 2; x += sliceWidth]. *)
Fixpoint vertices (sliceWidth height x : Q) (data : list Byte.byte)
    : list (Q * Q) :=
  match data with
  | [] => []
  | b :: rest =>
      let v := inject_Z (Z.of_N (Byte.to_N b)) / 128 in
      let y := (v * height) / 2 in
      (x, y) :: vertices sliceWidth height (x + sliceWidth) rest
  end.

(** The path of one frame: [const sliceWidth = width / bufferLength;
    let x = 0; for (...) {...}; ctx.lineTo(width, height / 2)]. With no
    sample the loop does not run and [sliceWidth] is not used. *)
Definition waveform (width height : Q) (data : list Byte.byte)
    : list (Q * Q) :=
  let bufferLength := inject_Z (Z.of_nat (length data)) in
  vertices (width / bufferLength) height 0 data ++ [(width, height / 2)].

End MicVisualizer.

(** * Vocabulary of the statements, and concrete inputs *)

(** The component as it is mounted, before any list has been fetched. *)
Definition app0 : App :=
  {| videoUrl := None; jsonOut := ""; busy := false; statusMsg := "";
     progress := 0; progressTimer := None; pendingUrl := None;
     startTsRef := 0; expectedMsRef := 120000; clipCountRef := 0;
     clips := []; dragIndex := None; loginRequired := false |}.

Definition world0 : World :=
  {| API_BASE := ""; app := app0; timers := []; nextHandle := 1%positive;
     sent := []; store := {| entries := []; lastTs := 0 |} |}.

(** A network that rejects every request of an auto-save, and one that
    answers them all. *)
Definition noNet : Net :=
  {| postOk := false; listOk := false; relistOk := false |}.
Definition goodNet : Net :=
  {| postOk := true; listOk := true; relistOk := true |}.

(** The only registered timer is the progress interval [h] of an operation
    begun at [s] with expected duration [e]. *)
Definition pendingAt (h : positive) (s e : Q) (w : World) : Prop :=
  (exists d, timers w =
     [{| handle := h; due := d; every := Some 120; callback := CbTick |}]) /\
  progressTimer (app w) = Some h /\
  startTsRef (app w) = s /\
  expectedMsRef (app w) = e /\
  nextHandle w = Pos.succ h.

(** Three runs of the first registered timer. *)
Definition threeTicks : list Firing :=
  [{| which := 1%positive; at_ := 1120; net_ := noNet |};
   {| which := 1%positive; at_ := 1245; net_ := noNet |};
   {| which := 1%positive; at_ := 200000; net_ := noNet |}].

(** The operation is pending and alone, and the video shown is still [v]. *)
Definition alone (h : positive) (s e : Q) (v : option string) (w : World)
    : Prop :=
  pendingAt h s e w /\ videoUrl (app w) = v.


(** What the sign-in branch shows, from the state [w] the handler started
    in to the state [w'] it returned in. *)
Definition signInShown (w w' : World) : Prop :=
  loginRequired (app w') = true /\ progress (app w') = 0 /\
  progressTimer (app w') = None /\
  statusMsg (app w') = "Sign in required to continue." /\
  busy (app w') = false /\
  (timers w = [] -> timers w' = []).

(** A response with this status is mapped to the sign-in state by both
    handlers, in both revisions. *)
Definition signInMapped (status : Z) : Prop :=
  forall rev env w body,
    fetched env = Response status body ->
    (forall file, exists w',
        handleSpeechToVideo rev file env w = Returned w' /\ signInShown w w') /\
    (exists w',
        handleStitchSaved rev true env w = Returned w' /\ signInShown w w').

(** An environment in which no timer runs while the handler is suspended. *)
Definition plainEnv (f : Fetched) (p : Preload) (t0 t1 : Q) : OpEnv :=
  {| startedAt := t0; whileFetching := []; fetched := f; whileParsing := [];
     whilePreloading := []; preloaded := p; resumedAt := t1;
     answers := goodNet |}.

Definition unauthorized : OpEnv := plainEnv (Response 401 None) Loaded 1000 3000.

(** A 403 whose body has no [video_url]. *)
Definition forbidden : OpEnv :=
  plainEnv
    (Response 403
       (Some {| video_url := None; success := false; stitched_url := None;
                json := "{}" |}))
    Loaded 1000 3000.




Definition offline : OpEnv := plainEnv NetworkError Loaded 1000 3000.

Definition withVideo (u : string) : ApiResult :=
  {| video_url := Some u; success := true; stitched_url := None; json := "{}" |}.


(** The response arrives and the preload ends 60 s after the start. *)
Definition early : OpEnv :=
  plainEnv (Response 200 (Some (withVideo "https://cdn/v.mp4"))) Loaded 1000 61000.

Definition hasTimestamp (c : Clip) : Prop := truthyTs (ts c) = true.

(** The last request sent is the reorder request, and the order it carries
    names the timestamp of every entry of the list now shown, in order. *)
Definition fullOrderSubmitted (w' : World) : Prop :=
  exists order : list Z,
    last (sent w') =
      Some (post "/api/clips/reorder"
              [("order", String.concat "," (map pretty order))] w') /\
    map Some order = map ts (clips (app w')).

(** C7 as stated, for its last part: whatever the clip list, a drop of the
    entry at index [i] onto index [j] submits the full new order. *)
Definition dropSubmitsFullOrder : Prop :=
  forall i j w w',
    dragIndex (app w) = Some i ->
    (i < length (clips (app w)))%nat ->
    (j < length (clips (app w)))%nat ->
    onDrop j w = Some w' ->
    fullOrderSubmitted w'.

Definition clipA : Clip :=
  {| ts := Some 1700000001%Z; url := "https://cdn/a.mp4"; note := "" |}.
Definition clipB : Clip :=
  {| ts := Some 1700000002%Z; url := "https://cdn/b.mp4"; note := "" |}.
Definition clipC : Clip :=
  {| ts := Some 1700000003%Z; url := "https://cdn/c.mp4"; note := "" |}.
Definition clipNoTs : Clip :=
  {| ts := None; url := "https://cdn/n.mp4"; note := "" |}.
Definition clipZeroTs : Clip :=
  {| ts := Some 0%Z; url := "https://cdn/z.mp4"; note := "" |}.



(** The mounted component showing the list [l], with a drag started on the
    row [i]. *)
Definition dragging (l : list Clip) (i : nat) : World :=
  onDragStart i (setClips l world0).

(** A backend that already holds two clips and an earlier stitched entry. *)
Definition oldStitched : Clip :=
  {| ts := Some 1700000009%Z; url := "/api/stitched"; note := "Stitched" |}.

Definition withPlaylist (l : list Clip) (w : World) : World :=
  setClips l (setStore {| entries := l; lastTs := 1700000009%Z |} w).

Definition stitchedOk : ApiResult :=
  {| video_url := None; success := true;
     stitched_url := Some "/media/stitched_2.mp4"; json := "{}" |}.

Definition noComposer : Stitcher.Env :=
  {| Stitcher.capability := Stitcher.Unavailable "moviepy is not installed";
     Stitcher.download := fun u => Some ("/tmp/" +:+ u);
     Stitcher.compose := fun _ => None |}.

Definition failingComposer : Stitcher.Env :=
  {| Stitcher.capability := Stitcher.Available;
     Stitcher.download := fun u => Some ("/tmp/" +:+ u);
     Stitcher.compose := fun _ => None |}.

(** The registered progress intervals. *)
Definition isTicker (tm : Timer) : bool :=
  match callback tm with
  | CbTick => true
  | _ => false
  end.

Definition tickers (w : World) : list Timer := List.filter isTicker (timers w).

(** At most one progress interval is registered, and [progressTimer] holds
    its handle. *)
Definition oneTicker (w : World) : Prop :=
  tickers w = [] \/
  exists tm, tickers w = [tm] /\ progressTimer (app w) = Some (handle tm).

(** The page as it is mounted. *)
Definition page0 : Page :=
  {| world := world0; auth := None; confirmOpen := false;
     pendingAudio := None; pendingTranscript := "" |}.

(** The actions that bring a session answer saying [authenticated]. *)
Definition authenticates (a : Action) : bool :=
  match a with
  | Mounts _ (Some j) | SessionFetched (Some j) | SignsOut (Some j) =>
      j_authenticated j
  | _ => false
  end.

(** The handles of the registered timers are distinct and were issued
    before [nextHandle], and every registered progress interval is the one
    [progressTimer] holds. *)
Definition tracked (w : World) : Prop :=
  NoDup (map handle (timers w)) /\
  Forall (fun tm => (handle tm < nextHandle w)%positive) (timers w) /\
  Forall (fun tm => isTicker tm = true ->
                    progressTimer (app w) = Some (handle tm)) (timers w).

(** The progress is a percentage, the expected duration is positive, only
    progress intervals are periodic, and none of them is due before the
    start of the operation it belongs to. *)
Definition wellTimed (w : World) : Prop :=
  0 <= progress (app w) <= 100 /\
  0 < expectedMsRef (app w) /\
  Forall (fun tm =>
            (forall p, every tm = Some p -> isTicker tm = true /\ 0 <= p) /\
            (isTicker tm = true -> startTsRef (app w) <= due tm))
         (timers w).

(** A point of the canvas of the given size. *)
Definition inside (width height : Q) (p : Q * Q) : Prop :=
  0 <= fst p <= width /\ 0 <= snd p <= height.

(** [resp.status === 401] on the response of the generate or stitch
    request. *)
Definition unauthorizedAnswer (env : OpEnv) : bool :=
  match fetched env with
  | Response status _ => (status =? 401)%Z
  | NetworkError => false
  end.

(** A session answer of the backend. *)
Definition session (signedIn : bool) : SessionJson :=
  {| j_authenticated := signedIn; j_user := None;
     j_usage_count := Some 1%Z; j_limit := Some 3%Z |}.

(** The page after a generation was answered with a 401. *)
Definition noticeUp : Page :=
  confirmProceed Unnamed unauthorized
    (recorderStopped "recording.webm" None page0).

(** A stitch begun at clock 70000 whose result is ready 10 s later. *)
Definition later : OpEnv :=
  plainEnv (Response 200 (Some stitchedOk)) Loaded 70000 80000.

(** A recording is confirmed and answered early, its interval ticks, a
    stitch is started while the first result is still deferred, the session
    is fetched, the deferred result arrives, the user saves it and drags the
    first row. *)
Definition overlapping : list Action :=
  [ RecorderStops "recording.webm" (Some "a red kite");
    Proceeds early;
    TimerRuns {| which := 1%positive; at_ := 1120; net_ := goodNet |};
    Stitches true later;
    SessionFetched (Some (session false));
    TimerRuns {| which := 2%positive; at_ := 121000; net_ := goodNet |};
    SavesLastClip goodNet;
    DragStarts 0;
    Drops 0;
    Cancels ].

(** What the pages revision offers: the same, without session and rows. *)
Definition overlappingPages : list Action :=
  [ Mounts true None;
    RecorderStops "recording.webm" None;
    Proceeds early;
    TimerRuns {| which := 1%positive; at_ := 1120; net_ := goodNet |};
    Stitches true later;
    TimerRuns {| which := 2%positive; at_ := 121000; net_ := goodNet |};
    SavesLastClip goodNet;
    ClearsClips Rejected false;
    VideoFails;
    Cancels ].


(** The page after a generation that was answered early: its [finish] is
    deferred to clock 121000 and [busy] is released. *)
Definition deferredGeneration : World :=
  worldOf (handleSpeechToVideo Unnamed "recording.webm" early world0).









(** A stitch answered after its calibrated time whose video does not load. *)
Definition videoRejected : OpEnv :=
  plainEnv (Response 200 (Some stitchedOk)) LoadFailed 1000 100000.

(** * Properties *)

(** ** An operation that runs alone *)

(** The state updates are evaluated on demand, under the projection that
    reads them. *)
#[local] Arguments updApp f w /.
#[local] Arguments seq f g w /.
#[local] Arguments setVideoUrl v /.
#[local] Arguments setJsonOut v /.
#[local] Arguments setBusy v /.
#[local] Arguments setStatusMsg v /.
#[local] Arguments setProgress v /.
#[local] Arguments setProgressTimer v /.
#[local] Arguments setPendingUrl v /.
#[local] Arguments setStartTs v /.
#[local] Arguments setExpectedMs v /.
#[local] Arguments setClips v /.
#[local] Arguments setDragIndex v /.
#[local] Arguments setLoginRequired v /.
#[local] Arguments setTimers ts' w /.
#[local] Arguments clearTimer h w /.
#[local] Arguments register p cb delay now k w /.
#[local] Arguments setInterval cb period now k /.
#[local] Arguments setTimeout cb delay now /.
#[local] Arguments fetch r w /.
#[local] Arguments setStore s w /.
#[local] Arguments giveUp m /.
#[local] Arguments signInRequired /.
#[local] Arguments whenTruthy o k w /.
#[local] Arguments beginProgress : simpl never.
#[local] Arguments endProgress : simpl never.
#[local] Arguments clearProgressTimer : simpl never.
#[local] Arguments finish : simpl never.
#[local] Arguments complete : simpl never.
#[local] Arguments tick : simpl never.
#[local] Arguments rearm : simpl never.
#[local] Arguments run : simpl never.

Ltac simpl_state := cbn in *.

Lemma clearProgressTimer_quiet w :
  timers w = [] ->
  timers (clearProgressTimer w) = [] /\
  progressTimer (app (clearProgressTimer w)) = None.
Proof.
  intros Hq. unfold clearProgressTimer.
  destruct (progressTimer (app w)) as [h|] eqn:E; simpl_state;
    rewrite ?Hq; auto.
Qed.

Lemma beginProgress_pending message e s w :
  timers w = [] ->
  pendingAt (nextHandle w) s e (beginProgress message e s w) /\
  progress (app (beginProgress message e s w)) = 0.
Proof.
  intros Hq. unfold pendingAt, beginProgress, clearProgressTimer.
  simpl_state.
  destruct (progressTimer (app w)); simpl_state; rewrite ?Hq; cbn;
    (split; [repeat split; eauto | reflexivity]).
Qed.

Lemma fire_pending rev f h s e w :
  pendingAt h s e w ->
  fire rev f w = w \/
  (which f = h /\ (exists d, In {| handle := h; due := d; every := Some 120;
                                   callback := CbTick |} (timers w)
                             /\ d <= at_ f) /\
   fire rev f w = tick (at_ f) (rearm h (at_ f + 120) w)).
Proof.
  intros ([d Ht] & _). unfold fire. rewrite Ht. cbn. unfold hasHandle. cbn.
  destruct (Pos.eqb_spec h (which f)) as [->|Hne]; [|now left]. cbn.
  destruct (Qle_bool d (at_ f)) eqn:Hd; [|now left].
  right. split; [reflexivity|]. split.
  - exists d. split; [now left | now apply Qle_bool_iff].
  - reflexivity.
Qed.

Lemma tick_pending h s e t d w :
  pendingAt h s e w ->
  pendingAt h s e (tick t (rearm h d w)) /\
  progress (app (tick t (rearm h d w))) = Qmin ((t - s) / e) 0.995 * 100.
Proof.
  intros ([d0 Ht] & Hp & Hs & He & Hn). unfold pendingAt, tick, rearm, hasHandle.
  simpl_state. rewrite Ht, Hs, He. cbn. rewrite Pos.eqb_refl.
  repeat split; eauto.
Qed.

(** Whatever the browser runs while the operation is alone, the operation
    stays pending, and a property of the state that a tick preserves is
    preserved. *)
Lemma run_pending (P : World -> Prop) rev h s e :
  (forall w t d, pendingAt h s e w -> P w -> P (tick t (rearm h d w))) ->
  forall fs w, pendingAt h s e w -> P w ->
    pendingAt h s e (run rev fs w) /\ P (run rev fs w).
Proof.
  intros Hstep fs. induction fs as [|f fs IH]; intros w Hw HP; [now split|].
  change (run rev (f :: fs) w) with (run rev fs (fire rev f w)).
  destruct (fire_pending rev f h s e w Hw) as [E|(_ & _ & E)]; rewrite E.
  - now apply IH.
  - apply IH; [apply tick_pending, Hw | apply Hstep; assumption].
Qed.

Lemma cap_below_100 x : Qmin x 0.995 * 100 < 100.
Proof.
  destruct (Q.min_spec x 0.995) as [[? H]|[? H]]; rewrite H; lra.
Qed.


Lemma ratio_nonneg s e t :
  0 < e -> s <= t -> 0 <= Qmin ((t - s) / e) 0.995 * 100.
Proof.
  intros He Ht. apply Qmult_le_0_compat; [|lra].
  apply Q.min_glb; [|lra].
  apply Qmult_le_0_compat; [lra|].
  apply Qlt_le_weak, Qinv_lt_0_compat, He.
Qed.

(** The two call sites pass a positive expected duration. *)
Lemma stitchExpected_pos n : 0 < stitchExpected n.
Proof.
  unfold stitchExpected.
  assert (1 <= Qmax 1 (inject_Z (Qceiling (inject_Z (Z.of_nat n) / 2))))
    by apply Q.le_max_l.
  lra.
Qed.

(** ** Progress ratio *)




Example deferred_finish_ends_the_next_interval :
  let w := run Unnamed
             [{| which := 2%positive; at_ := 121000; net_ := goodNet |}]
             (beginProgress "Stitching saved clips…" 45000 100000
                deferredGeneration) in
  progress (app w) = 100 /\ tickers w = [] /\
  videoUrl (app w) = Some "https://cdn/v.mp4".
Proof. vm_compute. repeat split. Qed.

(** ** Monotone progress *)




Example threeTicks_trace :
  progressTrace Unnamed threeTicks
    (beginProgress "Processing audio…" 120000 1000 world0)
  = [Qmin ((1120 - 1000) / 120000) 0.995 * 100;
     Qmin ((1245 - 1000) / 120000) 0.995 * 100;
     Qmin ((200000 - 1000) / 120000) 0.995 * 100].
Proof. vm_compute. reflexivity. Qed.



(** ** Completion: finalize, linger, reset *)




(** ** The handlers while their operation runs alone *)

Lemma alone_run rev fs h s e v w :
  alone h s e v w -> alone h s e v (run rev fs w).
Proof.
  intros [Hp Hv].
  apply (run_pending (fun w => videoUrl (app w) = v) rev h s e); auto.
Qed.

Lemma alone_begin message e s w :
  timers w = [] ->
  alone (nextHandle w) s e (videoUrl (app w))
    (beginProgress message e s (setBusy true w)).
Proof.
  intros Hq. split.
  - apply (beginProgress_pending message e s (setBusy true w)). exact Hq.
  - unfold beginProgress, clearProgressTimer. simpl_state.
    destruct (progressTimer (app w)); reflexivity.
Qed.

Lemma alone_fetch r h s e v w : alone h s e v w -> alone h s e v (fetch r w).
Proof. intros H. exact H. Qed.





(** The sign-in branch, from any state. *)
Lemma signInRequired_spec w :
  let w' := setBusy false (signInRequired w) in
  loginRequired (app w') = true /\ progress (app w') = 0 /\
  progressTimer (app w') = None /\
  statusMsg (app w') = "Sign in required to continue." /\
  busy (app w') = false /\
  (forall tm, In tm (timers w') -> In tm (timers w) /\
                                   progressTimer (app w) <> Some (handle tm)).
Proof.
  unfold signInRequired, clearProgressTimer. simpl_state.
  destruct (progressTimer (app w)) as [h|] eqn:E; simpl_state;
    do 5 (split; [reflexivity|]); intros tm Hin.
  - apply filter_In in Hin as [Hin Hh]. split; [exact Hin|].
    unfold hasHandle in Hh. intros [= ->].
    rewrite Pos.eqb_refl in Hh. discriminate.
  - split; [exact Hin | discriminate].
Qed.

(** ** Sign-in required *)

Lemma signIn_after_begin rev fs message e s r w :
  signInShown w
    (setBusy false (signInRequired
       (run rev fs (fetch r (beginProgress message e s (setBusy true w)))))).
Proof.
  set (w1 := run rev fs _).
  destruct (signInRequired_spec w1) as (H1 & H2 & H3 & H4 & H5 & H6).
  do 5 (split; [assumption|]). intros Hq.
  pose proof (alone_begin message e s w Hq) as Ha.
  apply (alone_fetch r), (alone_run rev fs) in Ha. fold w1 in Ha.
  destruct Ha as [([d Ht] & Hp & _) _].
  clearbody w1.
  destruct (timers (setBusy false (signInRequired w1))) as [|tm l];
    [reflexivity|].
  destruct (H6 tm) as [Hin Hne]; [now left|].
  rewrite Ht in Hin. destruct Hin as [<-|[]]. cbn in Hne. congruence.
Qed.

(** C5 (as amended). A 401 response to the generate or to the stitch request
    is mapped to the sign-in state: the handler returns normally with
    [loginRequired] set, the progress at 0, the progress interval cleared
    (no timer is left when the operation ran alone), the status "Sign in
    required to continue." and [busy] released. *)
Theorem unauthorized_maps_to_sign_in : signInMapped 401.
Proof.
  intros rev env w body Hf. split; [intros file|].
  - unfold handleSpeechToVideo. rewrite Hf. cbn.
    eexists. split; [reflexivity|]. apply signIn_after_begin.
  - unfold handleStitchSaved. rewrite Hf. cbn.
    eexists. split; [reflexivity|]. apply signIn_after_begin.
Qed.

Lemma unauthorized_maps_to_sign_in_witness :
  fetched unauthorized = Response 401 None /\
  exists w',
    handleSpeechToVideo Unnamed "recording.webm" unauthorized world0
      = Returned w' /\ signInShown world0 w'.
Proof.
  split; [reflexivity|].
  exact (proj1 (unauthorized_maps_to_sign_in Unnamed unauthorized world0 None
                  eq_refl) "recording.webm").
Defined.

Example forbidden_speech :
  let w' := worldOf (handleSpeechToVideo Unnamed "recording.webm" forbidden world0) in
  loginRequired (app w') = false /\
  statusMsg (app w') = "No video URL returned".
Proof. vm_compute. split; reflexivity. Qed.

Example forbidden_stitch :
  let w' := worldOf (handleStitchSaved Unnamed true forbidden world0) in
  loginRequired (app w') = false /\
  statusMsg (app w') = "Stitching failed".
Proof. vm_compute. split; reflexivity. Qed.

(** C5 as stated fails for 403: the handlers only test [resp.status === 401],
    and a 403 goes on to the parsing of the body like any other response. *)
Lemma forbidden_not_mapped_to_sign_in : ~ signInMapped 403.
Proof.
  intros H.
  destruct (H Unnamed forbidden world0 _ eq_refl) as [Hs _].
  destruct (Hs "recording.webm") as (w' & Hw' & Hl & _).
  injection Hw' as <-. vm_compute in Hl. discriminate.
Qed.

(** ** Failure paths *)



(** A rejected preload is not one of the failures above: the rejection
    leaves the handler through its [finally] only, the interval stays
    registered and the status stays at "Preparing video…". *)
Example rejected_preload_keeps_interval :
  exists w',
    handleSpeechToVideo Unnamed "recording.webm"
      (plainEnv (Response 200 (Some (withVideo "https://cdn/v.mp4")))
         LoadFailed 1000 3000) world0 = Thrown w' /\
    progressTimer (app w') = Some 1%positive /\
    length (timers w') = 1%nat /\
    statusMsg (app w') = "Preparing video…" /\
    busy (app w') = false.
Proof. eexists. split; [reflexivity|]. vm_compute. repeat split. Qed.

(** In the pages revision a rejected fetch is not caught either. *)
Example pages_rejected_fetch_keeps_interval :
  exists w',
    handleSpeechToVideo Pages "recording.webm" offline world0 = Thrown w' /\
    progressTimer (app w') = Some 1%positive /\
    length (timers w') = 1%nat.
Proof. eexists. split; [reflexivity|]. vm_compute. repeat split. Qed.

(** ** Deferred presentation *)









(** The handlers are their beginning, what runs during the fetch, and their
    resumption. *)
Lemma handleSpeechToVideo_cut rev file env w0 :
  handleSpeechToVideo rev file env w0 =
    speechResumes rev env
      (run rev (whileFetching env) (speechBegins file (startedAt env) w0)).
Proof. reflexivity. Qed.

Lemma handleStitchSaved_cut rev env w0 :
  handleStitchSaved rev true env w0 =
    stitchResumes rev w0 env
      (run rev (whileFetching env) (stitchBegins (startedAt env) w0)).
Proof. reflexivity. Qed.

Lemma amid_timers rev fs w :
  amid rev (map TimerEvent fs) w = run rev fs w.
Proof.
  revert w. induction fs as [|f fs IH]; intros w; [reflexivity|].
  exact (IH (fire rev f w)).
Qed.



Example early_is_deferred :
  let w' := worldOf (handleSpeechToVideo Unnamed "recording.webm" early world0) in
  videoUrl (app w') = None /\
  map due (List.filter (fun tm => negb (hasHandle 1 tm)) (timers w'))
    = [61000 + Qmax 0 (120000 - (61000 - 1000))].
Proof. vm_compute. split; reflexivity. Qed.

Example late_is_immediate :
  let w' := worldOf (handleSpeechToVideo Unnamed "recording.webm"
                       (plainEnv (Response 200 (Some (withVideo "https://cdn/v.mp4")))
                          Loaded 1000 130000) world0) in
  videoUrl (app w') = Some "https://cdn/v.mp4" /\ progress (app w') = 100 /\
  map callback (timers w') = [CbLinger].
Proof. vm_compute. repeat split. Qed.

(** ** Reordering by drag and drop *)

Section Splice.
Context {A : Type}.
Implicit Types (l : list A) (x : A).

Lemma insertAt_perm j x l : insertAt j x l ≡ₚ x :: l.
Proof.
  unfold insertAt. rewrite <- Permutation_middle. now rewrite take_drop.
Qed.

Lemma insertAt_lookup j x l :
  (j <= length l)%nat -> insertAt j x l !! j = Some x.
Proof.
  intros H. unfold insertAt. apply list_lookup_middle.
  rewrite length_take. lia.
Qed.

Lemma insertAt_delete j x l :
  (j <= length l)%nat -> delete j (insertAt j x l) = l.
Proof.
  intros H. unfold insertAt. rewrite delete_take_drop.
  rewrite take_app_length' by (rewrite length_take; lia).
  rewrite drop_app_ge by (rewrite length_take; lia).
  rewrite length_take_le by lia.
  replace (S j - j)%nat with 1%nat by lia.
  cbn. rewrite drop_0. apply take_drop.
Qed.

Lemma insertAt_length j x l : length (insertAt j x l) = S (length l).
Proof.
  unfold insertAt. rewrite length_app. cbn.
  rewrite length_take, length_drop. lia.
Qed.
End Splice.

Lemma orderOf_full l :
  Forall hasTimestamp l -> map Some (orderOf l) = map ts l.
Proof.
  induction 1 as [|c l Hc _ IH]; [reflexivity|].
  unfold orderOf in *. cbn. unfold hasTimestamp in Hc. rewrite Hc.
  destruct (ts c) as [z|]; [|discriminate]. cbn. now rewrite IH.
Qed.

(** C7 (as amended). A drop of the entry at index [i] onto another index [j]
    of the list: the new list is a permutation of the old one, of the same
    length, with the moved entry at [j] and the other entries in their old
    order; one request is sent, to the reorder operation, with the timestamps
    of the new list in order, comma-separated, entries without a timestamp
    (or with timestamp 0) left out; when every entry has a timestamp this is
    the full new order. *)
Theorem drop_reorders_and_submits i j w :
  dragIndex (app w) = Some i ->
  i <> j ->
  (i < length (clips (app w)))%nat ->
  (j < length (clips (app w)))%nat ->
  exists w' moved,
    onDrop j w = Some w' /\
    clips (app w) !! i = Some moved /\
    clips (app w') ≡ₚ clips (app w) /\
    length (clips (app w')) = length (clips (app w)) /\
    clips (app w') !! j = Some moved /\
    delete j (clips (app w')) = delete i (clips (app w)) /\
    dragIndex (app w') = None /\
    sent w' = sent w ++
      [post "/api/clips/reorder"
         [("order", String.concat "," (map pretty (orderOf (clips (app w')))))]
         w] /\
    (Forall hasTimestamp (clips (app w)) -> fullOrderSubmitted w').
Proof.
  intros Hd Hij Hi Hj.
  destruct (lookup_lt_is_Some_2 _ _ Hi) as [moved Hm].
  assert (Hlen : length (delete i (clips (app w))) = (length (clips (app w)) - 1)%nat)
    by (apply length_delete; eauto).
  assert (Hperm : insertAt j moved (delete i (clips (app w))) ≡ₚ clips (app w)).
  { rewrite insertAt_perm. symmetry. now apply delete_Permutation. }
  unfold onDrop. rewrite Hd. apply Nat.eqb_neq in Hij. rewrite Hij, Hm.
  eexists _, moved. split; [reflexivity|]. simpl_state.
  split; [reflexivity|]. split; [exact Hperm|]. split; [|split; [|split]].
  - rewrite insertAt_length, Hlen. lia.
  - apply insertAt_lookup. lia.
  - apply insertAt_delete. lia.
  - split; [reflexivity|]. split; [reflexivity|].
    intros Hall. eexists. unfold post. cbn. rewrite last_snoc.
    split; [reflexivity|]. apply orderOf_full.
    eapply Permutation_Forall; [symmetry; exact Hperm | exact Hall].
Qed.

Lemma drop_reorders_and_submits_witness :
  dragIndex (app (dragging [clipA; clipB; clipC] 2)) = Some 2%nat /\
  2%nat <> 0%nat /\
  (2 < length (clips (app (dragging [clipA; clipB; clipC] 2))))%nat /\
  (0 < length (clips (app (dragging [clipA; clipB; clipC] 2))))%nat /\
  exists w' moved,
    onDrop 0 (dragging [clipA; clipB; clipC] 2) = Some w' /\
    clips (app (dragging [clipA; clipB; clipC] 2)) !! 2%nat = Some moved /\
    clips (app w') ≡ₚ clips (app (dragging [clipA; clipB; clipC] 2)) /\
    length (clips (app w')) = length (clips (app (dragging [clipA; clipB; clipC] 2))) /\
    clips (app w') !! 0%nat = Some moved /\
    delete 0%nat (clips (app w')) = delete 2%nat (clips (app (dragging [clipA; clipB; clipC] 2))) /\
    dragIndex (app w') = None /\
    sent w' = sent (dragging [clipA; clipB; clipC] 2) ++
      [post "/api/clips/reorder"
         [("order", String.concat "," (map pretty (orderOf (clips (app w')))))]
         (dragging [clipA; clipB; clipC] 2)] /\
    (Forall hasTimestamp (clips (app (dragging [clipA; clipB; clipC] 2))) ->
     fullOrderSubmitted w').
Proof.
  assert (H1 : dragIndex (app (dragging [clipA; clipB; clipC] 2)) = Some 2%nat)
    by reflexivity.
  assert (H2 : 2%nat <> 0%nat) by discriminate.
  assert (H3 : (2 < length (clips (app (dragging [clipA; clipB; clipC] 2))))%nat)
    by (cbn; lia).
  assert (H4 : (0 < length (clips (app (dragging [clipA; clipB; clipC] 2))))%nat)
    by (cbn; lia).
  do 4 (split; [assumption|]).
  exact (drop_reorders_and_submits 2 0 (dragging [clipA; clipB; clipC] 2)
           H1 H2 H3 H4).
Defined.

(** The reorder of section 8: [a, b, c] becomes [c, a, b]. *)
Example drop_last_onto_first :
  exists w',
    onDrop 0 (dragging [clipA; clipB; clipC] 2) = Some w' /\
    clips (app w') = [clipC; clipA; clipB] /\
    sent w' = [{| method := "POST"; path := "/api/clips/reorder";
                  form := [("order", "1700000003,1700000001,1700000002")] |}].
Proof. eexists. split; [reflexivity|]. split; vm_compute; reflexivity. Qed.

(** Dropping a row onto itself changes and sends nothing. *)
Example drop_onto_itself w i :
  dragIndex (app w) = Some i -> onDrop i w = Some w.
Proof. intros H. unfold onDrop. now rewrite H, Nat.eqb_refl. Qed.

(** A drag index past the end of the list (the list shrank during the
    drag) splices an undefined entry in. *)
Example drop_with_stale_index : onDrop 0 (dragging [clipA] 3) = None.
Proof. reflexivity. Qed.

Example drop_skips_missing_timestamp :
  exists w',
    onDrop 1 (dragging [clipNoTs; clipB] 0) = Some w' /\
    clips (app w') = [clipB; clipNoTs] /\
    sent w' = [{| method := "POST"; path := "/api/clips/reorder";
                  form := [("order", "1700000002")] |}].
Proof. eexists. split; [reflexivity|]. split; vm_compute; reflexivity. Qed.

Example drop_skips_zero_timestamp :
  exists w',
    onDrop 0 (dragging [clipA; clipZeroTs] 1) = Some w' /\
    clips (app w') = [clipZeroTs; clipA] /\
    sent w' = [{| method := "POST"; path := "/api/clips/reorder";
                  form := [("order", "1700000001")] |}].
Proof. eexists. split; [reflexivity|]. split; vm_compute; reflexivity. Qed.

(** C7 as stated fails on a list with an entry that has no timestamp: the
    order submitted is filtered with [Boolean] and leaves that entry out. *)
Lemma drop_omits_entries_without_timestamp : ~ dropSubmitsFullOrder.
Proof.
  intros H.
  assert (H3 : (0 < length (clips (app (dragging [clipNoTs; clipB] 0))))%nat)
    by (cbn; lia).
  assert (H4 : (1 < length (clips (app (dragging [clipNoTs; clipB] 0))))%nat)
    by (cbn; lia).
  destruct (H 0%nat 1%nat (dragging [clipNoTs; clipB] 0) _ eq_refl H3 H4 eq_refl)
    as (order & _ & Hm).
  cbn in Hm. destruct order as [|a [|b r]]; discriminate.
Qed.

(** ** Auto-save of the stitched result *)












(** Nor is anything saved when the stitched video does not load: the
    handler throws before [finish]. *)
Example stitch_with_rejected_video_saves_nothing :
  let w0 := withPlaylist [clipA; oldStitched; clipB] world0 in
  let o := handleStitchSaved Unnamed true videoRejected w0 in
  (exists w', o = Thrown w') /\
  store (worldOf o) = store w0 /\
  map path (sent (worldOf o)) = ["/api/stitch"].
Proof. vm_compute. repeat split. eexists. reflexivity. Qed.

(** A stitch that ends after its calibrated time: the result is shown and
    saved when the handler returns. *)
Example stitch_then_auto_save :
  let w := withPlaylist [clipA; oldStitched; clipB] world0 in
  let w' := worldOf (handleStitchSaved Unnamed true
                       (plainEnv (Response 200 (Some stitchedOk)) Loaded 1000 100000)
                       w) in
  entries (store w') =
    [clipA; clipB;
     {| ts := Some 1700000010%Z; url := "/media/stitched_2.mp4"; note := "Stitched" |}] /\
  clips (app w') = entries (store w') /\
  videoUrl (app w') = Some "/media/stitched_2.mp4".
Proof. vm_compute. repeat split. Qed.

(** A stitch that ends early: nothing is saved until the deferred [finish]
    runs. *)
Example stitch_then_deferred_auto_save :
  let w := withPlaylist [clipA; oldStitched; clipB] world0 in
  let w1 := worldOf (handleStitchSaved Unnamed true
                       (plainEnv (Response 200 (Some stitchedOk)) Loaded 1000 20000)
                       w) in
  let w2 := fire Unnamed {| which := 2%positive; at_ := 91000; net_ := goodNet |} w1 in
  entries (store w1) = [clipA; oldStitched; clipB] /\
  entries (store w2) =
    [clipA; clipB;
     {| ts := Some 1700000010%Z; url := "/media/stitched_2.mp4"; note := "Stitched" |}] /\
  clips (app w2) = entries (store w2).
Proof. vm_compute. repeat split. Qed.

(** The pages revision does not save the stitched result. *)
Example pages_does_not_auto_save u net now w :
  store (finish Pages Stitch u net now w) = store w.
Proof.
  unfold finish, endProgress, clearProgressTimer. simpl_state.
  destruct (progressTimer (app w)); reflexivity.
Qed.

(** ** Segment plan *)

Section Plan.
Import SegmentPlanner.

Lemma ceilDiv_bounds D C :
  (0 < C)%Z ->
  ((ceilDiv D C - 1) * C < D <= ceilDiv D C * C)%Z.
Proof.
  intros HC. unfold ceilDiv.
  set (x := inject_Z D / inject_Z C).
  assert (HCq : inject_Z 0 < inject_Z C) by (rewrite <- Zlt_Qlt; exact HC).
  change (inject_Z 0) with 0 in HCq.
  assert (Hx : x * inject_Z C == inject_Z D).
  { unfold x. rewrite Qmult_comm. apply Qmult_div_r. lra. }
  split.
  - rewrite Zlt_Qlt, inject_Z_mult, <- Hx.
    apply Qmult_lt_r; [exact HCq | apply Qceiling_lt].
  - rewrite Zle_Qle, inject_Z_mult, <- Hx.
    apply Qmult_le_r; [exact HCq | apply Qle_ceiling].
Qed.

Lemma segments_spec C :
  (0 < C)%Z ->
  forall n i rest,
    (0 <= rest <= Z.of_nat n * C)%Z ->
    length (segments n i rest C) = n /\
    total (segments n i rest C) = rest /\
    Forall (fun s => (duration s <= C)%Z) (segments n i rest C).
Proof.
  intros HC n. induction n as [|n IH]; intros i rest Hr.
  - cbn in *. repeat split; [lia | constructor].
  - rewrite Nat2Z.inj_succ, Z.mul_succ_l in Hr.
    assert (Hn : (0 <= Z.of_nat n * C)%Z) by (apply Z.mul_nonneg_nonneg; lia).
    destruct (IH (S i) (rest - Z.min rest C)%Z) as (Hl & Ht & Hf); [lia|].
    cbn [segments length total fold_right].
    split; [now rewrite Hl|]. split.
    + fold (total (segments n (S i) (rest - Z.min rest C) C)).
      rewrite Ht. cbn. lia.
    + constructor; [cbn; lia | exact Hf].
Qed.

(** C4. For [D > 0] and [C > 0] the planner succeeds with exactly
    [ceil(D / C)] segments, whose durations add up to [D] and are each at
    most [C]. *)
Theorem plan_covers_duration D C :
  (0 < D)%Z -> (0 < C)%Z ->
  exists segs,
    plan D C = inr segs /\
    Z.of_nat (length segs) = Qceiling (inject_Z D / inject_Z C) /\
    total segs = D /\
    Forall (fun s => (duration s <= C)%Z) segs.
Proof.
  intros HD HC. pose proof (ceilDiv_bounds D C HC) as Hb.
  unfold plan. fold (ceilDiv D C).
  destruct (D <=? 0)%Z eqn:E0; [apply Z.leb_le in E0; lia|].
  destruct (D <=? C)%Z eqn:E1.
  - apply Z.leb_le in E1. eexists. split; [reflexivity|]. cbn.
    repeat split; [nia | lia | repeat constructor; cbn; lia].
  - apply Z.leb_gt in E1.
    assert (Hn : (0 <= ceilDiv D C)%Z) by nia.
    destruct (segments_spec C HC (Z.to_nat (ceilDiv D C)) 0 D) as (Hl & Ht & Hf).
    { rewrite Z2Nat.id by exact Hn. lia. }
    eexists. split; [reflexivity|].
    rewrite Hl, Z2Nat.id by exact Hn. auto.
Qed.

Lemma plan_covers_duration_witness :
  (0 < 25)%Z /\ (0 < 10)%Z /\
  exists segs,
    plan 25 10 = inr segs /\
    Z.of_nat (length segs) = Qceiling (inject_Z 25 / inject_Z 10) /\
    total segs = 25%Z /\
    Forall (fun s => (duration s <= 10)%Z) segs.
Proof.
  split; [reflexivity|]. split; [reflexivity|].
  apply (plan_covers_duration 25 10); reflexivity.
Defined.

(** The scenario of section 8, and the two edge cases of section 4.2. *)
Example plan_25_by_10 :
  plan 25 10 = inr [{| index := 0; duration := 10 |};
                    {| index := 1; duration := 10 |};
                    {| index := 2; duration := 5 |}].
Proof. reflexivity. Qed.

Example plan_short : plan 7 10 = inr [{| index := 0; duration := 7 |}].
Proof. reflexivity. Qed.

Example plan_invalid : plan 0 10 = inl InvalidDuration.
Proof. reflexivity. Qed.
End Plan.

(** ** Stitcher degradation *)

Section Degradation.
Import Stitcher.

(** C8. For a stitch over at least one segment, when the composition
    capability is unavailable, or the downloads succeed and the composition
    fails, the result is the first segment's artifact alone and not a
    failure. *)
Theorem stitch_degrades_to_first_segment env first rest :
  (exists reason, capability env = Unavailable reason) \/
  (exists files, mapM (download env) (first :: rest) = Some files /\
                 compose env files = None) ->
  stitch env (first :: rest) = FirstSegment first.
Proof.
  intros [[reason Hc]|(files & Hd & Hf)]; unfold stitch.
  - now rewrite Hc.
  - destruct (capability env); [|reflexivity]. now rewrite Hd, Hf.
Qed.

Lemma stitch_degrades_to_first_segment_witness :
  ((exists reason, capability noComposer = Unavailable reason) \/
   (exists files, mapM (download noComposer) ["s1.mp4"; "s2.mp4"; "s3.mp4"]
                    = Some files /\ compose noComposer files = None)) /\
  stitch noComposer ["s1.mp4"; "s2.mp4"; "s3.mp4"] = FirstSegment "s1.mp4".
Proof.
  assert (H : (exists reason, capability noComposer = Unavailable reason) \/
              (exists files,
                  mapM (download noComposer) ["s1.mp4"; "s2.mp4"; "s3.mp4"]
                    = Some files /\ compose noComposer files = None)).
  { left. eexists. reflexivity. }
  split; [exact H|].
  exact (stitch_degrades_to_first_segment noComposer "s1.mp4"
           ["s2.mp4"; "s3.mp4"] H).
Defined.

Example three_segments_failing_composition :
  stitch failingComposer ["s1.mp4"; "s2.mp4"; "s3.mp4"] = FirstSegment "s1.mp4".
Proof. reflexivity. Qed.

Example three_segments_composed :
  stitch {| capability := Available;
            download := fun u => Some ("/tmp/" +:+ u);
            compose := fun files => Some (String.concat "+" files) |}
         ["s1.mp4"; "s2.mp4"; "s3.mp4"]
  = Composed "/tmp/s1.mp4+/tmp/s2.mp4+/tmp/s3.mp4".
Proof. reflexivity. Qed.
End Degradation.

(** * Further properties of the client *)

(** ** Preloading *)

Section PreloadingFacts.
Import Preloading.

Lemma dispatch_when_done h v :
  done v = true ->
  done (dispatch h v) = true /\
  settled (dispatch h v) = settled v /\
  src (dispatch h v) = src v.
Proof.
  intros Hd. unfold dispatch, onReady, onError.
  destruct h; cbn; rewrite ?Hd;
    repeat match goal with
           | |- context [if ?b then _ else _] => destruct b
           end;
    cbn; rewrite ?Hd; auto.
Qed.

Lemma dispatch_first u h :
  settled (dispatch h (preloadVideo u)) = verdict h /\
  match verdict h with
  | None => dispatch h (preloadVideo u) = preloadVideo u
  | Some _ => done (dispatch h (preloadVideo u)) = true /\
              src (dispatch h (preloadVideo u)) = None
  end.
Proof. destruct h; vm_compute; auto. Qed.

Lemma dispatchAll_when_done hs :
  forall v, done v = true ->
    done (dispatchAll hs v) = true /\
    settled (dispatchAll hs v) = settled v /\
    src (dispatchAll hs v) = src v.
Proof.
  induction hs as [|h hs IH]; intros v Hd; [auto|].
  destruct (dispatch_when_done h v Hd) as (Hd' & Hs & Hsrc).
  destruct (IH (dispatch h v) Hd') as (H1 & H2 & H3).
  change (dispatchAll (h :: hs) v) with (dispatchAll hs (dispatch h v)).
  rewrite H2, H3, Hs, Hsrc. auto.
Qed.

(** X1. The promise of [preloadVideo] settles as the first happening that
    has a say decides: a ready event resolves it, an [error] event or the
    timeout rejects it, and nothing that happens later changes it. *)
Theorem preloadVideo_first_decides u hs :
  settled (dispatchAll hs (preloadVideo u)) = firstVerdict verdict hs.
Proof.
  induction hs as [|h hs IH]; [reflexivity|].
  destruct (dispatch_first u h) as [Hs Hv].
  change (dispatchAll (h :: hs) (preloadVideo u))
    with (dispatchAll hs (dispatch h (preloadVideo u))).
  cbn [firstVerdict]. destruct (verdict h) as [o|] eqn:E.
  - destruct Hv as [Hd _].
    destruct (dispatchAll_when_done hs _ Hd) as (_ & -> & _).
    rewrite Hs. reflexivity.
  - rewrite Hv. exact IH.
Qed.

(** X2. Whatever has happened, either the promise of [preloadVideo] is
    pending and nothing has changed (the source is attached, the timeout is
    armed, every listener is attached), or it has settled, [done] is set and
    the source has been removed from the element. *)
Theorem preloadVideo_releases_source u hs :
  let v := dispatchAll hs (preloadVideo u) in
  match settled v with
  | None => v = preloadVideo u
  | Some _ => done v = true /\ src v = None
  end.
Proof.
  induction hs as [|h hs IH]; [reflexivity|].
  destruct (dispatch_first u h) as [Hs Hv].
  change (dispatchAll (h :: hs) (preloadVideo u))
    with (dispatchAll hs (dispatch h (preloadVideo u))).
  cbn zeta in *. destruct (verdict h) as [o|] eqn:E.
  - destruct Hv as [Hd Hsrc].
    destruct (dispatchAll_when_done hs _ Hd) as (-> & -> & ->).
    rewrite Hs. auto.
  - rewrite Hv. exact IH.
Qed.

Lemma happen_when_raced h r o :
  raced r = Some o -> raced (happen h r) = Some o.
Proof.
  intros Hr. unfold happen.
  destruct h; cbn; rewrite ?Hr; try reflexivity.
  destruct (fallbackArmed r); cbn; rewrite ?Hr; reflexivity.
Qed.

Lemma happenAll_when_raced hs :
  forall r o, raced r = Some o -> raced (happenAll hs r) = Some o.
Proof.
  induction hs as [|h hs IH]; intros r o Hr; [exact Hr|].
  change (happenAll (h :: hs) r) with (happenAll hs (happen h r)).
  apply IH, happen_when_raced, Hr.
Qed.

Lemma happen_first u h :
  raced (happen h (preloadWithFallback u)) = raceVerdict h /\
  (raceVerdict h = None ->
   happen h (preloadWithFallback u) = preloadWithFallback u).
Proof. destruct h; vm_compute; split; auto; discriminate. Qed.

(** X3. The race of [preloadWithFallback] settles as the first happening
    that has a say decides: a ready event or the fallback timeout resolves
    it, and an [error] event (or the timeout of [preloadVideo]) that comes
    before all of them rejects it. *)
Theorem preloadWithFallback_first_decides u hs :
  raced (happenAll hs (preloadWithFallback u)) = firstVerdict raceVerdict hs.
Proof.
  induction hs as [|h hs IH]; [reflexivity|].
  destruct (happen_first u h) as [Hr Hsame].
  change (happenAll (h :: hs) (preloadWithFallback u))
    with (happenAll hs (happen h (preloadWithFallback u))).
  cbn [firstVerdict]. destruct (raceVerdict h) as [o|] eqn:E.
  - rewrite (happenAll_when_raced hs _ o Hr). reflexivity.
  - rewrite (Hsame eq_refl). exact IH.
Qed.

Example error_before_fallback_rejects :
  raced (happenAll [OtherMedia; Error; FallbackFires; Canplay]
           (preloadWithFallback "https://cdn/v.mp4")) = Some LoadFailed.
Proof. vm_compute. reflexivity. Qed.

Example fallback_before_error_resolves :
  raced (happenAll [FallbackFires; Error]
           (preloadWithFallback "https://cdn/v.mp4")) = Some Loaded.
Proof. vm_compute. reflexivity. Qed.

End PreloadingFacts.

(** ** The expected duration of a stitch *)

Lemma ceiling_of_half z : Qceiling (inject_Z z / 2) = ((z + 1) / 2)%Z.
Proof.
  unfold Qceiling, Qfloor. cbn. change (Z.pos (1 * 2)) with 2%Z.
  rewrite Z.mul_1_r.
  pose proof (Z.div_mod (- z) 2) as H1. pose proof (Z.div_mod (z + 1) 2) as H2.
  pose proof (Z.mod_pos_bound (- z) 2) as H3.
  pose proof (Z.mod_pos_bound (z + 1) 2) as H4.
  lia.
Qed.

(** X4. The expected duration of a stitch is 45 s for every started pair of
    clips, and 45 s when no clip is counted:
    45000 * max(1, (n + 1) div 2) for [n] clips. *)
Theorem stitchExpected_per_pair n :
  stitchExpected n == inject_Z (45000 * Z.max 1 ((Z.of_nat n + 1) / 2)).
Proof.
  unfold stitchExpected. rewrite ceiling_of_half, inject_Z_mult.
  apply Qmult_comp; [reflexivity|].
  destruct (Z.max_spec 1 ((Z.of_nat n + 1) / 2)) as [[Hlt ->]|[Hle ->]].
  - apply Q.max_r. change 1 with (inject_Z 1). rewrite <- Zle_Qle. lia.
  - apply Q.max_l. change 1 with (inject_Z 1). rewrite <- Zle_Qle. exact Hle.
Qed.

Example stitchExpected_values :
  map stitchExpected [0; 1; 2; 3; 4; 5]%nat
  = [45000 * Qmax 1 0; 45000 * Qmax 1 1; 45000 * Qmax 1 1;
     45000 * Qmax 1 2; 45000 * Qmax 1 2; 45000 * Qmax 1 3].
Proof. vm_compute. reflexivity. Qed.

(** ** What the panel shows while an operation is pending *)

Lemma fire_tick_alone rev f h s e w tm :
  pendingAt h s e w ->
  In tm (timers w) -> which f = handle tm -> due tm <= at_ f ->
  fire rev f w = tick (at_ f) (rearm h (at_ f + 120) w).
Proof.
  intros ([d Ht] & _) Hin Hf Hd. rewrite Ht in Hin.
  destruct Hin as [<-|[]]. cbn in Hf, Hd.
  unfold fire. rewrite Ht. unfold hasHandle. cbn.
  rewrite Hf, Pos.eqb_refl. cbn.
  apply Qle_bool_iff in Hd. rewrite Hd. reflexivity.
Qed.

Lemma label_of_capped x :
  (Qfloor (Qmin x 0.995 * 100 + (1 # 2)) <= 100)%Z /\
  (Qfloor (Qmin x 0.995 * 100 + (1 # 2)) = 100%Z <-> 0.995 <= x).
Proof.
  assert (Hcap : Qmin x 0.995 * 100 + (1 # 2) <= inject_Z 100).
  { pose proof (Q.le_min_r x 0.995). change (inject_Z 100) with 100. lra. }
  split; [|split].
  - rewrite <- (Qfloor_Z 100). apply Qfloor_resp_le, Hcap.
  - intros Hfl. pose proof (Qfloor_le (Qmin x 0.995 * 100 + (1 # 2))) as Hle.
    rewrite Hfl in Hle. change (inject_Z 100) with 100 in Hle.
    destruct (Q.min_spec x 0.995) as [[Hlt Hm]|[Hge Hm]]; [|exact Hge].
    rewrite Hm in Hle. lra.
  - intros Hx. rewrite <- (Qfloor_Z 100). apply Qfloor_comp.
    rewrite (Q.min_r x 0.995 Hx). reflexivity.
Qed.

(** X5. While an operation that runs alone is pending, the percentage shown
    ([Math.round(progress)]) is at most 100, and the tick at clock [t] makes
    it read 100 exactly when [t] has reached [s + 0.995 * e]: the label
    shows 100 although completion has not been observed. *)
Theorem label_reads_100_at_the_cap rev w message e s fs f tm :
  0 < e -> timers w = [] ->
  let w1 := run rev fs (beginProgress message e s w) in
  In tm (timers w1) -> which f = handle tm -> due tm <= at_ f ->
  (percentLabel (fire rev f w1) <= 100)%Z /\
  (percentLabel (fire rev f w1) = 100%Z <-> s + 0.995 * e <= at_ f).
Proof.
  intros He Hq w1 Hin Hf Hd.
  destruct (beginProgress_pending message e s w Hq) as [Hp _].
  destruct (run_pending (fun _ => True) rev (nextHandle w) s e) with
    (fs := fs) (w := beginProgress message e s w) as [Hp1 _]; auto.
  fold w1 in Hp1. clearbody w1.
  rewrite (fire_tick_alone rev f _ s e w1 tm Hp1 Hin Hf Hd).
  destruct (tick_pending _ s e (at_ f) (at_ f + 120) w1 Hp1) as [_ Hpr].
  unfold percentLabel. rewrite Hpr.
  destruct (label_of_capped ((at_ f - s) / e)) as [Hle Hiff].
  split; [exact Hle|]. rewrite Hiff. split; intros H.
  - assert (0.995 * e <= at_ f - s); [|lra].
    apply (Qmult_le_r _ _ (/ e)); [now apply Qinv_lt_0_compat|].
    rewrite <- Qmult_assoc, Qmult_inv_r by lra. unfold Qdiv in H. lra.
  - apply Qle_shift_div_l; [exact He | lra].
Qed.

Lemma label_reads_100_at_the_cap_witness :
  0 < 120000 /\ timers world0 = [] /\
  let w1 := run Unnamed threeTicks
              (beginProgress "Processing audio…" 120000 1000 world0) in
  let f := {| which := 1%positive; at_ := 200500; net_ := noNet |} in
  let tm := {| handle := 1%positive; due := 200000 + 120; every := Some 120;
               callback := CbTick |} in
  In tm (timers w1) /\ which f = handle tm /\ due tm <= at_ f /\
  (percentLabel (fire Unnamed f w1) <= 100)%Z /\
  (percentLabel (fire Unnamed f w1) = 100%Z <-> 1000 + 0.995 * 120000 <= at_ f).
Proof.
  assert (H1 : 0 < 120000) by reflexivity.
  assert (H2 : timers world0 = []) by reflexivity.
  assert (H3 : In {| handle := 1%positive; due := 200000 + 120;
                     every := Some 120; callback := CbTick |}
                  (timers (run Unnamed threeTicks
                     (beginProgress "Processing audio…" 120000 1000 world0))))
    by (vm_compute; left; reflexivity).
  assert (H5 : 200000 + 120 <= 200500) by (vm_compute; discriminate).
  split; [exact H1|]. split; [exact H2|]. cbn zeta.
  split; [exact H3|]. split; [reflexivity|]. split; [exact H5|].
  exact (label_reads_100_at_the_cap Unnamed world0 "Processing audio…" 120000
           1000 threeTicks
           {| which := 1%positive; at_ := 200500; net_ := noNet |}
           {| handle := 1%positive; due := 200000 + 120; every := Some 120;
              callback := CbTick |} H1 H2 H3 eq_refl H5).
Defined.

(** ** More on reordering *)

Lemma insertAt_back {A} (l : list A) i x :
  l !! i = Some x -> insertAt i x (delete i l) = l.
Proof.
  intros Hx. pose proof (lookup_lt_Some _ _ _ Hx) as Hi.
  unfold insertAt. rewrite delete_take_drop.
  rewrite take_app_length' by (rewrite length_take; lia).
  rewrite drop_app_length' by (rewrite length_take; lia).
  now apply take_drop_middle.
Qed.

(** X6. Dragging an entry from index [i] onto index [j] and then dragging
    the entry now at [j] back onto [i] shows the list as it was. *)
Theorem drop_back_restores_list i j w w1 :
  dragIndex (app w) = Some i ->
  i <> j ->
  (i < length (clips (app w)))%nat ->
  (j < length (clips (app w)))%nat ->
  onDrop j w = Some w1 ->
  exists w2,
    onDrop i (onDragStart j w1) = Some w2 /\
    clips (app w2) = clips (app w).
Proof.
  intros Hd Hij Hi Hj H1.
  destruct (lookup_lt_is_Some_2 _ _ Hi) as [moved Hm].
  assert (Hlen : length (delete i (clips (app w)))
                 = (length (clips (app w)) - 1)%nat)
    by (apply length_delete; eauto).
  unfold onDrop in H1. rewrite Hd in H1.
  pose proof Hij as Hij'. apply Nat.eqb_neq in Hij'. rewrite Hij', Hm in H1.
  injection H1 as <-.
  unfold onDrop, onDragStart. cbn.
  assert (Hji : (j =? i)%nat = false) by (apply Nat.eqb_neq; congruence).
  rewrite Hji, insertAt_lookup by lia.
  eexists. split; [reflexivity|]. cbn.
  rewrite insertAt_delete by lia. now apply insertAt_back.
Qed.

Lemma drop_back_restores_list_witness :
  dragIndex (app (dragging [clipA; clipB; clipC] 2)) = Some 2%nat /\
  2%nat <> 0%nat /\
  (2 < length (clips (app (dragging [clipA; clipB; clipC] 2))))%nat /\
  (0 < length (clips (app (dragging [clipA; clipB; clipC] 2))))%nat /\
  exists w1,
    onDrop 0 (dragging [clipA; clipB; clipC] 2) = Some w1 /\
    exists w2,
      onDrop 2 (onDragStart 0 w1) = Some w2 /\
      clips (app w2) = clips (app (dragging [clipA; clipB; clipC] 2)).
Proof.
  assert (H1 : dragIndex (app (dragging [clipA; clipB; clipC] 2)) = Some 2%nat)
    by reflexivity.
  assert (H2 : 2%nat <> 0%nat) by discriminate.
  assert (H3 : (2 < length (clips (app (dragging [clipA; clipB; clipC] 2))))%nat)
    by (cbn; lia).
  assert (H4 : (0 < length (clips (app (dragging [clipA; clipB; clipC] 2))))%nat)
    by (cbn; lia).
  do 4 (split; [assumption|]).
  eexists. split; [reflexivity|].
  exact (drop_back_restores_list 2 0 (dragging [clipA; clipB; clipC] 2) _
           H1 H2 H3 H4 eq_refl).
Defined.

(** ** The auto-save is best-effort *)

(** X8. When the POST of the auto-save is rejected, [finish] of a stitch
    still shows the stitched video and completes the progress; the playlist
    and the clips shown are untouched, and the POST is not repeated. *)
Theorem rejected_auto_save_is_swallowed u net now w :
  postOk net = false ->
  let w' := finish Unnamed Stitch u net now w in
  videoUrl (app w') = Some u /\ progress (app w') = 100 /\
  statusMsg (app w') = "Stitching complete" /\
  store w' = store w /\ clips (app w') = clips (app w) /\
  sent w' = sent w ++
    [post "/api/clips" [("url", u); ("note", "Stitched")] w].
Proof.
  intros Hp. cbn zeta.
  unfold finish, endProgress, clearProgressTimer, autoSave, saveClipDirect,
    post.
  rewrite Hp. simpl_state.
  destruct (progressTimer (app w)); simpl_state; repeat split.
Qed.

Lemma rejected_auto_save_is_swallowed_witness :
  postOk noNet = false /\
  let w := withPlaylist [clipA; oldStitched; clipB] world0 in
  let w' := finish Unnamed Stitch "/media/stitched_2.mp4" noNet 130000 w in
  videoUrl (app w') = Some "/media/stitched_2.mp4" /\
  progress (app w') = 100 /\
  statusMsg (app w') = "Stitching complete" /\
  store w' = store w /\ clips (app w') = clips (app w) /\
  sent w' = sent w ++
    [post "/api/clips" [("url", "/media/stitched_2.mp4"); ("note", "Stitched")] w].
Proof.
  split; [reflexivity|].
  exact (rejected_auto_save_is_swallowed "/media/stitched_2.mp4" noNet 130000
           (withPlaylist [clipA; oldStitched; clipB] world0) eq_refl).
Defined.

(** ** The waveform stays inside the canvas *)

Section Waveform.
Import MicVisualizer.

Lemma sample_height (b : Byte.byte) height :
  0 <= height ->
  0 <= (inject_Z (Z.of_N (Byte.to_N b)) / 128 * height) / 2 <= height.
Proof.
  intros Hh. pose proof (Byte.to_N_bounded b) as Hb.
  set (z := Z.of_N (Byte.to_N b)).
  assert (H0 : 0 <= inject_Z z)
    by (change 0 with (inject_Z 0); rewrite <- Zle_Qle; lia).
  assert (H1 : inject_Z z <= 255)
    by (change 255 with (inject_Z 255); rewrite <- Zle_Qle; lia).
  assert (E : inject_Z z / 128 * height / 2 == inject_Z z * height * (1 # 256))
    by (unfold Qdiv; change (/ 128) with (1 # 128);
        change (/ 2) with (1 # 2); ring).
  rewrite E.
  assert (H2 : 0 <= inject_Z z * height) by (apply Qmult_le_0_compat; assumption).
  assert (H3 : inject_Z z * height <= 255 * height)
    by (apply Qmult_le_compat_r; assumption).
  split; lra.
Qed.

Lemma vertices_span sw height :
  0 <= sw -> 0 <= height ->
  forall data x,
    Forall (fun p =>
              x <= fst p /\
              fst p + sw <= x + sw * inject_Z (Z.of_nat (length data)) /\
              0 <= snd p <= height)
           (vertices sw height x data).
Proof.
  intros Hsw Hh data. induction data as [|b rest IH]; intros x; [constructor|].
  assert (Hn : 0 <= sw * inject_Z (Z.of_nat (length rest))).
  { apply Qmult_le_0_compat; [exact Hsw|].
    change 0 with (inject_Z 0). rewrite <- Zle_Qle. lia. }
  assert (E : inject_Z (Z.of_nat (length (b :: rest)))
              == inject_Z (Z.of_nat (length rest)) + 1).
  { cbn [length]. rewrite Nat2Z.inj_succ, <- Z.add_1_r, inject_Z_plus.
    reflexivity. }
  cbn [vertices]. constructor.
  - cbn [fst snd]. rewrite E. split; [lra|]. split; [lra|].
    apply sample_height, Hh.
  - eapply List.Forall_impl; [|apply (IH (x + sw))].
    intros [a c] (H1 & H2 & H3). cbn [fst snd] in *. rewrite E.
    split; [lra|]. split; [lra | exact H3].
Qed.

(** X9. Every vertex that [draw] plots lies inside the canvas: its abscissa
    is between 0 and the width, its ordinate between 0 and the height,
    whatever the samples. *)
Theorem waveform_inside_canvas width height data :
  0 <= width -> 0 <= height ->
  Forall (inside width height) (waveform width height data).
Proof.
  intros Hw Hh. unfold waveform. apply Forall_app. split; cycle 1.
  { constructor; [|constructor]. unfold inside. cbn [fst snd].
    split; [lra|]. split; [apply Qle_shift_div_l|apply Qle_shift_div_r]; lra. }
  destruct data as [|b rest]; [constructor|].
  set (data := b :: rest).
  set (n := inject_Z (Z.of_nat (length data))).
  assert (Hn : 0 < n).
  { unfold n. change 0 with (inject_Z 0). rewrite <- Zlt_Qlt.
    unfold data. cbn [length]. lia. }
  assert (Hsw : 0 <= width / n).
  { apply Qle_shift_div_l; [exact Hn | lra]. }
  assert (E : width / n * n == width).
  { unfold Qdiv. rewrite <- Qmult_assoc, (Qmult_comm (/ n)), Qmult_inv_r; lra. }
  eapply List.Forall_impl; [|apply (vertices_span (width / n) height Hsw Hh data 0)].
  intros [a c] (H1 & H2 & H3). fold n in H2. rewrite E in H2.
  unfold inside. cbn [fst snd] in *. split; [lra | exact H3].
Qed.

Lemma waveform_inside_canvas_witness :
  0 <= 560 /\ 0 <= 90 /\
  Forall (inside 560 90) (waveform 560 90 [Byte.x00; Byte.x80; Byte.xff]).
Proof.
  assert (H1 : 0 <= 560) by discriminate.
  assert (H2 : 0 <= 90) by discriminate.
  split; [exact H1|]. split; [exact H2|].
  exact (waveform_inside_canvas 560 90 [Byte.x00; Byte.x80; Byte.xff] H1 H2).
Defined.

Example waveform_of_silence :
  map snd (waveform 560 90 [Byte.x80; Byte.x80])
  = [inject_Z 128 / 128 * 90 / 2; inject_Z 128 / 128 * 90 / 2; 90 / 2].
Proof. reflexivity. Qed.

End Waveform.

(** ** The sign-in flag *)

Lemma login_clear w :
  loginRequired (app (clearProgressTimer w)) = loginRequired (app w).
Proof. unfold clearProgressTimer. destruct (progressTimer (app w)); reflexivity. Qed.

Lemma login_begin message e s w :
  loginRequired (app (beginProgress message e s w)) = loginRequired (app w).
Proof. unfold beginProgress. cbn. rewrite login_clear. reflexivity. Qed.

Lemma login_end m t w :
  loginRequired (app (endProgress m t w)) = loginRequired (app w).
Proof.
  unfold endProgress. destruct m as [m|]; cbn;
    [destruct (String.eqb m ""); cbn|]; rewrite login_clear; reflexivity.
Qed.

Lemma login_finish rev k u net t w :
  loginRequired (app (finish rev k u net t w)) = loginRequired (app w).
Proof.
  unfold finish, autoSave, saveClipDirect, refreshClips.
  destruct rev, k, net as [[] [] []]; cbn; rewrite login_end; reflexivity.
Qed.

Lemma login_complete rev k u net t w :
  loginRequired (app (complete rev k u net t w)) = loginRequired (app w).
Proof.
  unfold complete. destruct (Qgtb _ 0); [reflexivity | apply login_finish].
Qed.

Lemma login_fire rev f w :
  loginRequired (app (fire rev f w)) = loginRequired (app w).
Proof.
  unfold fire. destruct (List.find _ (timers w)) as [tm|]; [|reflexivity].
  destruct (Qle_bool (due tm) (at_ f)); [|reflexivity].
  unfold runCallback, tick, rearm.
  destruct (callback tm), (every tm); cbn; rewrite ?login_finish; reflexivity.
Qed.

Lemma login_run rev fs :
  forall w, loginRequired (app (run rev fs w)) = loginRequired (app w).
Proof.
  induction fs as [|f fs IH]; intros w; [reflexivity|].
  change (run rev (f :: fs) w) with (run rev fs (fire rev f w)).
  rewrite IH. apply login_fire.
Qed.

Lemma login_finally o :
  loginRequired (app (worldOf (finally o))) = loginRequired (app (worldOf o)).
Proof. destruct o; reflexivity. Qed.

Lemma login_giveUp m w :
  loginRequired (app (giveUp m w)) = loginRequired (app w).
Proof. cbn. apply login_clear. Qed.

Lemma login_caught rev w :
  loginRequired (app (worldOf (caught rev w))) = loginRequired (app w).
Proof. destruct rev; cbn [caught worldOf]; [apply login_giveUp|reflexivity]. Qed.

Lemma login_signIn w : loginRequired (app (signInRequired w)) = true.
Proof. cbn. rewrite login_clear. reflexivity. Qed.

Lemma login_fetch r w :
  loginRequired (app (fetch r w)) = loginRequired (app w).
Proof. reflexivity. Qed.

Lemma login_jsonOut j w :
  loginRequired (app (setJsonOut j w)) = loginRequired (app w).
Proof. reflexivity. Qed.

Lemma login_started rev fs message e s r w :
  loginRequired
    (app (run rev fs (fetch r (beginProgress message e s (setBusy true w)))))
    = loginRequired (app w).
Proof. rewrite login_run, login_fetch, login_begin. reflexivity. Qed.

Lemma login_preparing rev fs u m j w :
  loginRequired
    (app (run rev fs (setPendingUrl u (setStatusMsg m (setJsonOut j w)))))
    = loginRequired (app w).
Proof. rewrite login_run. reflexivity. Qed.

Lemma login_speech rev file env w :
  loginRequired (app (worldOf (handleSpeechToVideo rev file env w)))
    = loginRequired (app w) || unauthorizedAnswer env.
Proof.
  unfold handleSpeechToVideo, unauthorizedAnswer. rewrite login_finally.
  pose proof (login_started rev (whileFetching env) "Processing audio…"
                120000 (startedAt env)
                (post "/api/speech-to-video" [("audio", file)] w) w) as H1.
  revert H1.
  generalize (run rev (whileFetching env)
                (fetch (post "/api/speech-to-video" [("audio", file)] w)
                   (beginProgress "Processing audio…" 120000 (startedAt env)
                      (setBusy true w)))).
  intros w1 H1.
  destruct (fetched env) as [|status [data|]].
  - rewrite login_caught, H1. now rewrite orb_false_r.
  - destruct (status =? 401)%Z; cbn [worldOf].
    { rewrite login_signIn. now rewrite orb_true_r. }
    rewrite orb_false_r.
    destruct (truthy (video_url data)); cbn [worldOf];
      [|rewrite login_giveUp, login_jsonOut, login_run; exact H1].
    destruct (preloaded env); cbn [worldOf];
      rewrite ?login_complete, login_preparing, login_run; exact H1.
  - destruct (status =? 401)%Z; cbn [worldOf].
    { rewrite login_signIn. now rewrite orb_true_r. }
    rewrite login_caught, login_run, H1. now rewrite orb_false_r.
Qed.

Lemma login_stitch rev confirmed env w :
  loginRequired (app (worldOf (handleStitchSaved rev confirmed env w)))
    = loginRequired (app w) || (confirmed && unauthorizedAnswer env).
Proof.
  unfold handleStitchSaved, unauthorizedAnswer.
  destruct confirmed; cbn [negb andb worldOf]; [|now rewrite orb_false_r].
  rewrite login_finally.
  pose proof (login_started rev (whileFetching env) "Stitching saved clips…"
                (stitchExpected (clipsCount w)) (startedAt env)
                (post "/api/stitch" [("use_saved", "true")] w) w) as H1.
  revert H1.
  generalize (run rev (whileFetching env)
                (fetch (post "/api/stitch" [("use_saved", "true")] w)
                   (beginProgress "Stitching saved clips…"
                      (stitchExpected (clipsCount w)) (startedAt env)
                      (setBusy true w)))).
  intros w1 H1.
  destruct (fetched env) as [|status [data|]].
  - rewrite login_caught, H1. now rewrite orb_false_r.
  - destruct (status =? 401)%Z; cbn [worldOf].
    { rewrite login_signIn. now rewrite orb_true_r. }
    rewrite orb_false_r.
    destruct (success data); cbn [worldOf];
      [|rewrite login_giveUp, login_jsonOut, login_run; exact H1].
    destruct (preloaded env); cbn [worldOf];
      rewrite ?login_complete, login_preparing, login_run; exact H1.
  - destruct (status =? 401)%Z; cbn [worldOf].
    { rewrite login_signIn. now rewrite orb_true_r. }
    rewrite login_caught, login_run, H1. now rewrite orb_false_r.
Qed.

(** X10. The two handlers leave [loginRequired] as it was, except that a
    401 answer sets it: in either revision and from any state, the flag
    after the handler is the flag before or-ed with "the answer was a 401".
    No path of a handler clears it. *)
Theorem login_flag_changes_on_401_only rev file confirmed env w :
  loginRequired (app (worldOf (handleSpeechToVideo rev file env w)))
    = loginRequired (app w) || unauthorizedAnswer env /\
  loginRequired (app (worldOf (handleStitchSaved rev confirmed env w)))
    = loginRequired (app w) || (confirmed && unauthorizedAnswer env).
Proof. split; [apply login_speech | apply login_stitch]. Qed.

Lemma login_refresh ok w :
  loginRequired (app (worldOf (refreshClips ok w))) = loginRequired (app w).
Proof. unfold refreshClips. destruct ok; reflexivity. Qed.

Lemma login_save net n w :
  loginRequired (app (worldOf (handleSaveLastClip net n w)))
    = loginRequired (app w).
Proof.
  unfold handleSaveLastClip, refreshClips.
  destruct (truthy (videoUrl (app w))), net as [[] [] []]; reflexivity.
Qed.

Lemma login_clear_clips ans ok w :
  loginRequired (app (worldOf (handleClearClips ans ok w)))
    = loginRequired (app w).
Proof.
  unfold handleClearClips, refreshClips. destruct ans, ok; reflexivity.
Qed.

Lemma login_delete idx ans ok w :
  loginRequired (app (deleteClip idx ans ok w)) = loginRequired (app w).
Proof.
  unfold deleteClip, refreshClips.
  destruct (clips (app w) !! idx) as [c|]; [|reflexivity].
  destruct (truthyTs (ts c)); [|reflexivity].
  destruct ans as [|[] after], ok; reflexivity.
Qed.

Lemma login_play idx w :
  loginRequired (app (playClip idx w)) = loginRequired (app w).
Proof. unfold playClip. destruct (clips (app w) !! idx); reflexivity. Qed.

Lemma login_drop idx w w' :
  onDrop idx w = Some w' -> loginRequired (app w') = loginRequired (app w).
Proof.
  unfold onDrop. destruct (dragIndex (app w)) as [i|]; [|now intros [= <-]].
  destruct (i =? idx)%nat; [now intros [= <-]|].
  destruct (clips (app w) !! i); [|discriminate]. now intros [= <-].
Qed.

Lemma login_session ans p :
  match ans with
  | Some j => j_authenticated j = false
  | None => True
  end ->
  loginRequired (app (world (fetchSession ans p)))
    = loginRequired (app (world p)).
Proof.
  unfold fetchSession. destruct ans as [j|]; [|reflexivity].
  intros ->. reflexivity.
Qed.

(** One action that brings no authenticated session answer keeps the flag. *)
Lemma login_step rev a p p' :
  authenticates a = false ->
  perform rev a p = Some p' ->
  loginRequired (app (world p)) = true ->
  loginRequired (app (world p')) = true.
Proof.
  intros Ha Hp Hl.
  destruct a; cbn [perform] in Hp;
    try (injection Hp as <-).
  - unfold mount. destruct rev; [|exact Hl].
    rewrite login_session; [exact Hl|].
    destruct ans as [j|]; [exact Ha | exact I].
  - unfold recorderStopped. destruct (truthy text); exact Hl.
  - unfold confirmProceed. destruct (pendingAudio p); [|exact Hl].
    cbn. rewrite login_speech. cbn. rewrite Hl. reflexivity.
  - exact Hl.
  - cbn. rewrite login_stitch, Hl. reflexivity.
  - cbn. rewrite login_fire. exact Hl.
  - rewrite login_session; [exact Hl|].
    destruct ans as [j|]; [exact Ha | exact I].
  - unfold signOut. rewrite login_session; [exact Hl|].
    destruct ans as [j|]; [exact Ha | exact I].
  - cbn. rewrite login_save. exact Hl.
  - cbn. rewrite login_clear_clips. exact Hl.
  - cbn. rewrite login_delete. exact Hl.
  - cbn. rewrite login_play. exact Hl.
  - exact Hl.
  - exact Hl.
  - exact Hl.
  - destruct (onDrop idx (world p)) as [w|] eqn:E; [|discriminate].
    injection Hp as <-. cbn. rewrite (login_drop _ _ _ E). exact Hl.
Qed.

Lemma offered_pages_no_session a :
  offered Pages a = true -> authenticates a = false \/
  exists listOk ans, a = Mounts listOk ans.
Proof. destruct a; cbn; intros H; try discriminate; eauto. Qed.

(** X11. Once the sign-in notice is up it stays up through every handler
    and timer of the page, in either revision, as long as no session answer
    says [authenticated]: only [fetchSession] takes it down. *)
Theorem sign_in_notice_stays_until_authenticated rev acts :
  forall p p',
    loginRequired (app (world p)) = true ->
    Forall (fun a => authenticates a = false) acts ->
    performAll rev acts p = Some p' ->
    loginRequired (app (world p')) = true.
Proof.
  induction acts as [|a acts IH]; intros p p' Hl Hacts Hp.
  - injection Hp as <-. exact Hl.
  - apply Forall_cons in Hacts as [Ha Hacts]. cbn [performAll] in Hp.
    destruct (perform rev a p) as [p1|] eqn:E; [|discriminate].
    apply (IH p1 p'); [|exact Hacts|exact Hp].
    exact (login_step rev a p p1 Ha E Hl).
Qed.

Lemma sign_in_notice_stays_until_authenticated_witness :
  loginRequired (app (world noticeUp)) = true /\
  Forall (fun a => authenticates a = false) overlapping /\
  exists p', performAll Unnamed overlapping noticeUp = Some p' /\
             loginRequired (app (world p')) = true.
Proof.
  assert (Hl : loginRequired (app (world noticeUp)) = true)
    by (vm_compute; reflexivity).
  assert (Ha : Forall (fun a => authenticates a = false) overlapping)
    by (repeat constructor).
  split; [exact Hl|]. split; [exact Ha|].
  destruct (performAll Unnamed overlapping noticeUp) as [p'|] eqn:E.
  - exists p'. split; [reflexivity|].
    exact (sign_in_notice_stays_until_authenticated Unnamed overlapping
             noticeUp p' Hl Ha E).
  - exfalso. vm_compute in E. discriminate.
Defined.

(** X12. The pages revision never takes the sign-in notice down: it has no
    [fetchSession], so after a 401 the notice stays through every action
    that revision offers. *)
Theorem pages_never_clears_sign_in_notice acts :
  forall p p',
    loginRequired (app (world p)) = true ->
    Forall (fun a => offered Pages a = true) acts ->
    performAll Pages acts p = Some p' ->
    loginRequired (app (world p')) = true.
Proof.
  induction acts as [|a acts IH]; intros p p' Hl Hacts Hp.
  - injection Hp as <-. exact Hl.
  - apply Forall_cons in Hacts as [Ha Hacts]. cbn [performAll] in Hp.
    destruct (perform Pages a p) as [p1|] eqn:E; [|discriminate].
    apply (IH p1 p'); [|exact Hacts|exact Hp].
    destruct (offered_pages_no_session a Ha) as [Hn|(listOk & ans & ->)].
    + exact (login_step Pages a p p1 Hn E Hl).
    + cbn in E. injection E as <-. exact Hl.
Qed.

Lemma pages_never_clears_sign_in_notice_witness :
  loginRequired (app (world noticeUp)) = true /\
  Forall (fun a => offered Pages a = true) overlappingPages /\
  exists p', performAll Pages overlappingPages noticeUp = Some p' /\
             loginRequired (app (world p')) = true.
Proof.
  assert (Hl : loginRequired (app (world noticeUp)) = true)
    by (vm_compute; reflexivity).
  assert (Ha : Forall (fun a => offered Pages a = true) overlappingPages)
    by (repeat constructor).
  split; [exact Hl|]. split; [exact Ha|].
  destruct (performAll Pages overlappingPages noticeUp) as [p'|] eqn:E.
  - exists p'. split; [reflexivity|].
    exact (pages_never_clears_sign_in_notice overlappingPages noticeUp p'
             Hl Ha E).
  - exfalso. vm_compute in E. discriminate.
Defined.

(** ** The progress interval is tracked *)

Lemma NoDup_map_filter {A B} (f : A -> B) (P : A -> bool) l :
  NoDup (map f l) -> NoDup (map f (List.filter P l)).
Proof.
  induction l as [|a l IH]; cbn; intros H; [constructor|].
  inversion H as [|? ? Hnot Hnd]; subst.
  destruct (P a); cbn; [constructor|]; auto.
  intros Hin. apply Hnot. apply list_elem_of_In.
  apply list_elem_of_In, in_map_iff in Hin as (x & <- & Hx).
  apply filter_In in Hx as [Hx _]. now apply in_map.
Qed.

Lemma Forall_filter_keep {A} (Q : A -> Prop) (P : A -> bool) l :
  Forall Q l -> Forall Q (List.filter P l).
Proof.
  rewrite !List.Forall_forall. intros H x Hx.
  apply filter_In in Hx as [Hx _]. auto.
Qed.

Lemma fresh_NoDup l tm :
  NoDup (map handle l) ->
  Forall (fun t => (handle t < handle tm)%positive) l ->
  NoDup (map handle (l ++ [tm])).
Proof.
  intros Hnd Hlt. rewrite map_app. cbn.
  apply NoDup_app. split; [exact Hnd|]. split.
  - intros h Hin Hh. apply list_elem_of_singleton in Hh as ->.
    apply list_elem_of_In, in_map_iff in Hin as (t & Ht & Hin).
    rewrite List.Forall_forall in Hlt. specialize (Hlt t Hin). lia.
  - apply NoDup_singleton.
Qed.

Lemma tracked_same w w' :
  timers w' = timers w -> nextHandle w' = nextHandle w ->
  progressTimer (app w') = progressTimer (app w) ->
  tracked w -> tracked w'.
Proof. unfold tracked. intros -> -> ->. auto. Qed.

Lemma tracked_clearTimer h w : tracked w -> tracked (clearTimer h w).
Proof.
  intros (Hnd & Hlt & Htk). unfold tracked. cbn.
  split; [now apply NoDup_map_filter|].
  split; now apply Forall_filter_keep.
Qed.

Lemma quiet_clear w :
  tracked w ->
  Forall (fun tm => isTicker tm = false) (timers (clearProgressTimer w)).
Proof.
  intros (_ & _ & Htk). rewrite List.Forall_forall in Htk.
  apply List.Forall_forall. intros tm Hin.
  destruct (isTicker tm) eqn:E; [exfalso|reflexivity].
  unfold clearProgressTimer in Hin.
  destruct (progressTimer (app w)) as [h|] eqn:Hp; cbn in Hin.
  - apply filter_In in Hin as [Hin Hh]. specialize (Htk tm Hin E).
    injection Htk as ->. unfold hasHandle in Hh.
    rewrite Pos.eqb_refl in Hh. discriminate.
  - specialize (Htk tm Hin E). congruence.
Qed.

Lemma tracked_clear w : tracked w -> tracked (clearProgressTimer w).
Proof.
  intros H. pose proof (quiet_clear w H) as Hq. destruct H as (Hnd & Hlt & _).
  unfold clearProgressTimer in *.
  destruct (progressTimer (app w)) as [h|] eqn:Hp; cbn in *.
  - split; [now apply NoDup_map_filter|].
    split; [now apply Forall_filter_keep|].
    eapply List.Forall_impl; [|exact Hq]. cbn. congruence.
  - split; [exact Hnd|]. split; [exact Hlt|].
    eapply List.Forall_impl; [|exact Hq]. cbn. congruence.
Qed.

Lemma tracked_timeout cb d now w :
  cb <> CbTick -> tracked w -> tracked (setTimeout cb d now w).
Proof.
  intros Hcb (Hnd & Hlt & Htk). unfold tracked. cbn. split; [|split].
  - apply fresh_NoDup; [exact Hnd | exact Hlt].
  - apply Forall_app. split.
    + eapply List.Forall_impl; [|exact Hlt]. cbn. lia.
    + repeat constructor. cbn. lia.
  - apply Forall_app. split; [exact Htk|].
    repeat constructor. unfold isTicker. cbn.
    destruct cb; [contradiction|discriminate..].
Qed.

Lemma tracked_interval now w :
  tracked w ->
  Forall (fun tm => isTicker tm = false) (timers w) ->
  tracked (setInterval CbTick 120 now (fun h => setProgressTimer (Some h)) w).
Proof.
  intros (Hnd & Hlt & _) Hq. unfold tracked. cbn. split; [|split].
  - apply fresh_NoDup; [exact Hnd | exact Hlt].
  - apply Forall_app. split.
    + eapply List.Forall_impl; [|exact Hlt]. cbn. lia.
    + repeat constructor. cbn. lia.
  - apply Forall_app. split.
    + eapply List.Forall_impl; [|exact Hq]. cbn. congruence.
    + repeat constructor.
Qed.

Lemma tracked_begin message e s w :
  tracked w -> tracked (beginProgress message e s w).
Proof.
  intros H. unfold beginProgress, seq.
  apply tracked_interval; [apply tracked_clear | apply quiet_clear];
    exact H.
Qed.

Lemma tracked_end m t w : tracked w -> tracked (endProgress m t w).
Proof.
  intros H. unfold endProgress, seq, whenTruthy.
  apply tracked_timeout; [discriminate|].
  apply tracked_clear in H.
  destruct m as [m|]; [destruct (truthy (Some m))|]; exact H.
Qed.

Lemma autoSave_timers net u w :
  timers (autoSave net u w) = timers w /\
  nextHandle (autoSave net u w) = nextHandle w /\
  progressTimer (app (autoSave net u w)) = progressTimer (app w).
Proof.
  unfold autoSave, saveClipDirect, refreshClips.
  destruct net as [[] [] []]; cbn; auto.
Qed.

Lemma tracked_finish rev k u net t w :
  tracked w -> tracked (finish rev k u net t w).
Proof.
  intros H. unfold finish, seq.
  assert (He : tracked (endProgress (Some (finalMessage k)) t
                          (setPendingUrl None (setVideoUrl (Some u) w))))
    by (apply tracked_end; exact H).
  destruct rev, k; try exact He.
  destruct (autoSave_timers net u
              (endProgress (Some (finalMessage Stitch)) t
                 (setPendingUrl None (setVideoUrl (Some u) w))))
    as (E1 & E2 & E3).
  exact (tracked_same _ _ E1 E2 E3 He).
Qed.

Lemma tracked_complete rev k u net t w :
  tracked w -> tracked (complete rev k u net t w).
Proof.
  intros H. unfold complete.
  destruct (Qgtb _ 0); [apply tracked_timeout; [discriminate|exact H]|].
  now apply tracked_finish.
Qed.

Lemma tracked_rearm h next w : tracked w -> tracked (rearm h next w).
Proof.
  intros (Hnd & Hlt & Htk). unfold tracked, rearm. cbn.
  set (g := fun t : Timer => if hasHandle h t then _ else t).
  assert (Hh : forall t, handle (g t) = handle t)
    by (intros t; unfold g; destruct (hasHandle h t); reflexivity).
  assert (Hc : forall t, isTicker (g t) = isTicker t)
    by (intros t; unfold g; destruct (hasHandle h t); reflexivity).
  split; [|split].
  - rewrite map_map. erewrite map_ext; [exact Hnd|]. exact Hh.
  - apply List.Forall_forall. intros t' Hin.
    apply in_map_iff in Hin as (t & <- & Hin). rewrite Hh.
    rewrite List.Forall_forall in Hlt. auto.
  - apply List.Forall_forall. intros t' Hin.
    apply in_map_iff in Hin as (t & <- & Hin). rewrite Hh, Hc.
    rewrite List.Forall_forall in Htk. auto.
Qed.

Lemma tracked_fire rev f w : tracked w -> tracked (fire rev f w).
Proof.
  intros H. unfold fire.
  destruct (List.find _ (timers w)) as [tm|]; [|exact H].
  destruct (Qle_bool (due tm) (at_ f)); [|exact H].
  assert (H' : tracked match every tm with
                       | Some p => rearm (which f) (at_ f + p) w
                       | None => clearTimer (which f) w
                       end)
    by (destruct (every tm);
        [now apply tracked_rearm | now apply tracked_clearTimer]).
  revert H'. generalize (match every tm with
                         | Some p => rearm (which f) (at_ f + p) w
                         | None => clearTimer (which f) w
                         end).
  intros w1 H1. destruct (callback tm); cbn [runCallback].
  - exact H1.
  - exact H1.
  - now apply tracked_finish.
Qed.

Lemma tracked_run rev fs : forall w, tracked w -> tracked (run rev fs w).
Proof.
  induction fs as [|f fs IH]; intros w H; [exact H|].
  change (run rev (f :: fs) w) with (run rev fs (fire rev f w)).
  apply IH, tracked_fire, H.
Qed.

Lemma tracked_giveUp m w : tracked w -> tracked (giveUp m w).
Proof. intros H. apply tracked_clear in H. exact H. Qed.

Lemma tracked_signIn w : tracked w -> tracked (signInRequired w).
Proof.
  intros H. unfold signInRequired, seq.
  assert (H1 : tracked (setLoginRequired true w)) by exact H.
  apply tracked_clear in H1. exact H1.
Qed.

Lemma tracked_caught rev w : tracked w -> tracked (worldOf (caught rev w)).
Proof.
  intros H. destruct rev; cbn [caught worldOf]; [|exact H].
  now apply tracked_giveUp.
Qed.

Lemma tracked_busy b w : tracked w -> tracked (setBusy b w).
Proof. intros H. exact H. Qed.

Lemma tracked_fetch r w : tracked w -> tracked (fetch r w).
Proof. intros H. exact H. Qed.

Lemma tracked_preparing u m j w :
  tracked w -> tracked (setPendingUrl u (setStatusMsg m (setJsonOut j w))).
Proof. intros H. exact H. Qed.

Lemma tracked_finally o :
  tracked (worldOf o) -> tracked (worldOf (finally o)).
Proof. destruct o; intros H; exact H. Qed.

Lemma tracked_speech rev file env w :
  tracked w -> tracked (worldOf (handleSpeechToVideo rev file env w)).
Proof.
  intros H. unfold handleSpeechToVideo. apply tracked_finally.
  assert (H1 : tracked
            (run rev (whileFetching env)
               (fetch (post "/api/speech-to-video" [("audio", file)] w)
                  (beginProgress "Processing audio…" 120000 (startedAt env)
                     (setBusy true w))))).
  { apply tracked_run, tracked_fetch, tracked_begin, tracked_busy, H. }
  revert H1. generalize (run rev (whileFetching env)
               (fetch (post "/api/speech-to-video" [("audio", file)] w)
                  (beginProgress "Processing audio…" 120000 (startedAt env)
                     (setBusy true w)))).
  intros w1 H1.
  destruct (fetched env) as [|status [data|]].
  - now apply tracked_caught.
  - destruct (status =? 401)%Z; [now apply tracked_signIn|].
    assert (H2 : tracked (run rev (whileParsing env) w1))
      by now apply tracked_run.
    destruct (truthy (video_url data)); [|now apply tracked_giveUp].
    assert (H3 : tracked
              (run rev (whilePreloading env)
                 (setPendingUrl (Some (default "" (video_url data)))
                    (setStatusMsg "Preparing video…"
                       (setJsonOut (json data)
                          (run rev (whileParsing env) w1))))))
      by (apply tracked_run, tracked_preparing, H2).
    destruct (preloaded env); [|exact H3].
    now apply tracked_complete.
  - destruct (status =? 401)%Z; [now apply tracked_signIn|].
    apply tracked_caught. now apply tracked_run.
Qed.

Lemma tracked_stitch rev confirmed env w :
  tracked w -> tracked (worldOf (handleStitchSaved rev confirmed env w)).
Proof.
  intros H. unfold handleStitchSaved.
  destruct confirmed; [|exact H]. cbn [negb]. apply tracked_finally.
  assert (H1 : tracked
            (run rev (whileFetching env)
               (fetch (post "/api/stitch" [("use_saved", "true")] w)
                  (beginProgress "Stitching saved clips…"
                     (stitchExpected (clipsCount w)) (startedAt env)
                     (setBusy true w))))).
  { apply tracked_run, tracked_fetch, tracked_begin, tracked_busy, H. }
  revert H1. generalize (run rev (whileFetching env)
               (fetch (post "/api/stitch" [("use_saved", "true")] w)
                  (beginProgress "Stitching saved clips…"
                     (stitchExpected (clipsCount w)) (startedAt env)
                     (setBusy true w)))).
  intros w1 H1.
  destruct (fetched env) as [|status [data|]].
  - now apply tracked_caught.
  - destruct (status =? 401)%Z; [now apply tracked_signIn|].
    assert (H2 : tracked (run rev (whileParsing env) w1))
      by now apply tracked_run.
    destruct (success data); [|now apply tracked_giveUp].
    assert (H3 : tracked
              (run rev (whilePreloading env)
                 (setPendingUrl (Some (stitchedUrl rev data w))
                    (setStatusMsg "Preparing video…"
                       (setJsonOut (json data)
                          (run rev (whileParsing env) w1))))))
      by (apply tracked_run, tracked_preparing, H2).
    destruct (preloaded env); [|exact H3].
    now apply tracked_complete.
  - destruct (status =? 401)%Z; [now apply tracked_signIn|].
    apply tracked_caught. now apply tracked_run.
Qed.

Lemma tracked_refresh ok w :
  tracked w -> tracked (worldOf (refreshClips ok w)).
Proof. intros H. unfold refreshClips. destruct ok; exact H. Qed.

Lemma tracked_store s w : tracked w -> tracked (setStore s w).
Proof. intros H. exact H. Qed.

Lemma tracked_save net n w :
  tracked w -> tracked (worldOf (handleSaveLastClip net n w)).
Proof.
  intros H. unfold handleSaveLastClip.
  destruct (truthy (videoUrl (app w))); cbn [negb worldOf]; [|exact H].
  destruct (postOk net); [|exact H].
  apply tracked_refresh, tracked_store, tracked_fetch, H.
Qed.

Lemma tracked_clear_clips ans ok w :
  tracked w -> tracked (worldOf (handleClearClips ans ok w)).
Proof.
  intros H. unfold handleClearClips. destruct ans; [exact H|].
  apply tracked_refresh, tracked_store, tracked_fetch, H.
Qed.

Lemma tracked_delete idx ans ok w :
  tracked w -> tracked (deleteClip idx ans ok w).
Proof.
  intros H. unfold deleteClip.
  destruct (clips (app w) !! idx) as [c|]; [|exact H].
  destruct (truthyTs (ts c)); [|exact H].
  destruct ans as [|[] after]; [exact H| |exact H].
  apply tracked_refresh, tracked_store, tracked_fetch, H.
Qed.

Lemma tracked_play idx w : tracked w -> tracked (playClip idx w).
Proof.
  intros H. unfold playClip. destruct (clips (app w) !! idx); exact H.
Qed.

Lemma tracked_drop idx w w' :
  onDrop idx w = Some w' -> tracked w -> tracked w'.
Proof.
  unfold onDrop. intros E H.
  destruct (dragIndex (app w)) as [i|]; [|now injection E as <-].
  destruct (i =? idx)%nat; [now injection E as <-|].
  destruct (clips (app w) !! i); [|discriminate].
  injection E as <-. exact H.
Qed.

Lemma tracked_session ans p :
  tracked (world p) -> tracked (world (fetchSession ans p)).
Proof.
  intros H. unfold fetchSession.
  destruct ans as [j|]; [destruct (j_authenticated j)|]; exact H.
Qed.

Lemma world_confirmProceed rev env p :
  world (confirmProceed rev env p) =
    match pendingAudio p with
    | Some file => worldOf (handleSpeechToVideo rev file env (world p))
    | None => world p
    end.
Proof. unfold confirmProceed. destruct (pendingAudio p); reflexivity. Qed.

Lemma tracked_step rev a p p' :
  perform rev a p = Some p' -> tracked (world p) -> tracked (world p').
Proof.
  intros Hp H.
  destruct a; cbn [perform] in Hp; try (injection Hp as <-).
  - unfold mount.
    destruct rev; [apply tracked_session|]; exact H.
  - unfold recorderStopped. destruct (truthy text); exact H.
  - rewrite world_confirmProceed.
    destruct (pendingAudio p); [now apply tracked_speech | exact H].
  - exact H.
  - now apply tracked_stitch.
  - now apply tracked_fire.
  - now apply tracked_session.
  - unfold signOut. apply tracked_session. exact H.
  - now apply tracked_save.
  - now apply tracked_clear_clips.
  - now apply tracked_delete.
  - now apply tracked_play.
  - exact H.
  - exact H.
  - exact H.
  - destruct (onDrop idx (world p)) as [w|] eqn:E; [|discriminate].
    injection Hp as <-. exact (tracked_drop _ _ _ E H).
Qed.

Lemma tracked_all rev acts :
  forall p p',
    performAll rev acts p = Some p' -> tracked (world p) ->
    tracked (world p').
Proof.
  induction acts as [|a acts IH]; intros p p' Hp H.
  - injection Hp as <-. exact H.
  - cbn [performAll] in Hp.
    destruct (perform rev a p) as [p1|] eqn:E; [|discriminate].
    exact (IH p1 p' Hp (tracked_step rev a p p1 E H)).
Qed.

Lemma one_of_distinct (l : list Timer) :
  NoDup (map handle l) ->
  (forall t1 t2, In t1 l -> In t2 l -> isTicker t1 = true ->
                 isTicker t2 = true -> handle t1 = handle t2) ->
  List.filter isTicker l = [] \/ exists tm, List.filter isTicker l = [tm].
Proof.
  induction l as [|a l IH]; intros Hnd Hsame; [now left|].
  apply NoDup_cons in Hnd as [Hnot Hnd]. cbn [List.filter].
  assert (Hl : forall t1 t2, In t1 l -> In t2 l -> isTicker t1 = true ->
                 isTicker t2 = true -> handle t1 = handle t2)
    by (intros t1 t2 H1 H2; apply Hsame; now right).
  destruct (IH Hnd Hl) as [E|[tm E]].
  - rewrite E. destruct (isTicker a); [right; eauto | now left].
  - rewrite E. destruct (isTicker a) eqn:Ea; [exfalso | right; eauto].
    assert (Hin : In tm (List.filter isTicker l)) by (rewrite E; now left).
    apply filter_In in Hin as [Hin Htm].
    apply Hnot, list_elem_of_In.
    rewrite (Hsame a tm); [now apply in_map|now left|now right|exact Ea|exact Htm].
Qed.

Lemma tracked_oneTicker w : tracked w -> oneTicker w.
Proof.
  intros (Hnd & _ & Htk). rewrite List.Forall_forall in Htk.
  unfold oneTicker, tickers.
  destruct (one_of_distinct (timers w) Hnd) as [E|[tm E]].
  - intros t1 t2 H1 H2 E1 E2.
    pose proof (Htk t1 H1 E1) as P1. pose proof (Htk t2 H2 E2) as P2.
    congruence.
  - now left.
  - right. exists tm. split; [exact E|].
    assert (Hin : In tm (List.filter isTicker (timers w)))
      by (rewrite E; now left).
    apply filter_In in Hin as [Hin Htm]. auto.
Qed.

(** X13. However the handlers and the timers of the page follow one
    another, in either revision, at most one progress interval is
    registered, and [progressTimer] holds its handle: [beginProgress] never
    leaves an earlier interval running beside the new one. *)
Theorem progress_interval_is_unique rev acts p p' :
  timers (world p) = [] ->
  performAll rev acts p = Some p' ->
  oneTicker (world p').
Proof.
  intros Hq Hp. apply tracked_oneTicker.
  apply (tracked_all rev acts p p' Hp).
  unfold tracked. rewrite Hq. repeat split; constructor.
Qed.

Lemma progress_interval_is_unique_witness :
  timers (world page0) = [] /\
  exists p', performAll Unnamed overlapping page0 = Some p' /\
             oneTicker (world p').
Proof.
  split; [reflexivity|].
  destruct (performAll Unnamed overlapping page0) as [p'|] eqn:E.
  - exists p'. split; [reflexivity|].
    exact (progress_interval_is_unique Unnamed overlapping page0 p'
             eq_refl E).
  - exfalso. vm_compute in E. discriminate.
Defined.

(** The second operation of [overlapping] replaces the interval of the
    first: two were registered, one is left. *)
Example overlapping_leaves_one_interval :
  option_map (fun p => map handle (tickers (world p)))
    (performAll Unnamed (take 4 overlapping) page0) = Some [3%positive].
Proof. vm_compute. reflexivity. Qed.

(** ** The confirmation dialog *)

(** X14. Confirming a second time does nothing, whatever the network would
    answer: the first confirmation has emptied [pendingAudio], so the
    recording is submitted once. Confirming after a cancel does nothing
    either. *)
Theorem confirming_again_does_nothing rev env env' p :
  confirmProceed rev env' (confirmProceed rev env p)
    = confirmProceed rev env p /\
  confirmProceed rev env (confirmCancel p) = confirmCancel p.
Proof.
  destruct p as [w a c f t]. unfold confirmProceed, confirmCancel.
  cbn [pendingAudio setConfirmOpen setPendingAudio setPendingTranscript
       onWorld world auth confirmOpen pendingTranscript].
  destruct f; split; reflexivity.
Qed.

(** ** What a generation sends *)















(** ** The progress is a percentage in every state *)

Lemma timed_frame w w' :
  timers w' = timers w -> progress (app w') = progress (app w) ->
  expectedMsRef (app w') = expectedMsRef (app w) ->
  startTsRef (app w') = startTsRef (app w) ->
  wellTimed w -> wellTimed w'.
Proof. unfold wellTimed. intros -> -> -> ->. auto. Qed.

Lemma timed_setProgress v w :
  0 <= v <= 100 -> wellTimed w -> wellTimed (setProgress v w).
Proof. intros Hv (_ & He & Hc). split; [exact Hv|]. split; assumption. Qed.

Lemma timed_statusMsg m w : wellTimed w -> wellTimed (setStatusMsg m w).
Proof. intros H. exact H. Qed.

Lemma timed_busy b w : wellTimed w -> wellTimed (setBusy b w).
Proof. intros H. exact H. Qed.

Lemma timed_fetch r w : wellTimed w -> wellTimed (fetch r w).
Proof. intros H. exact H. Qed.

Lemma timed_store s w : wellTimed w -> wellTimed (setStore s w).
Proof. intros H. exact H. Qed.

Lemma timed_loginRequired b w : wellTimed w -> wellTimed (setLoginRequired b w).
Proof. intros H. exact H. Qed.

Lemma timed_shown u w :
  wellTimed w -> wellTimed (setPendingUrl None (setVideoUrl u w)).
Proof. intros H. exact H. Qed.

Lemma timed_preparing u m j w :
  wellTimed w -> wellTimed (setPendingUrl u (setStatusMsg m (setJsonOut j w))).
Proof. intros H. exact H. Qed.

Lemma timed_jsonOut j w : wellTimed w -> wellTimed (setJsonOut j w).
Proof. intros H. exact H. Qed.

Lemma timed_clearTimer h w : wellTimed w -> wellTimed (clearTimer h w).
Proof.
  intros (Hp & He & Hc). split; [exact Hp|]. split; [exact He|].
  now apply Forall_filter_keep.
Qed.

Lemma timed_clear w : wellTimed w -> wellTimed (clearProgressTimer w).
Proof.
  intros H. unfold clearProgressTimer.
  destruct (progressTimer (app w)) as [h|]; [|exact H].
  apply (timed_clearTimer h) in H. exact H.
Qed.

Lemma timed_timeout cb d now w :
  cb <> CbTick -> wellTimed w -> wellTimed (setTimeout cb d now w).
Proof.
  intros Hcb (Hp & He & Hc). split; [exact Hp|]. split; [exact He|].
  cbn. apply Forall_app. split; [exact Hc|].
  repeat constructor; cbn.
  - discriminate.
  - discriminate.
  - unfold isTicker. cbn. destruct cb; [contradiction|discriminate..].
Qed.

Lemma clear_keeps w :
  progress (app (clearProgressTimer w)) = progress (app w) /\
  expectedMsRef (app (clearProgressTimer w)) = expectedMsRef (app w) /\
  startTsRef (app (clearProgressTimer w)) = startTsRef (app w).
Proof.
  unfold clearProgressTimer. destruct (progressTimer (app w)); auto.
Qed.

Lemma clear_sub w tm :
  In tm (timers (clearProgressTimer w)) -> In tm (timers w).
Proof.
  unfold clearProgressTimer. destruct (progressTimer (app w)); cbn; [|auto].
  intros H. now apply filter_In in H.
Qed.

(** What [clearProgressTimer] leaves registered: timeouts only. *)
Lemma calm_clear w :
  tracked w ->
  Forall (fun tm => forall p, every tm = Some p -> isTicker tm = true)
         (timers w) ->
  Forall (fun tm => isTicker tm = false /\ every tm = None)
         (timers (clearProgressTimer w)).
Proof.
  intros Ht Hc. pose proof (quiet_clear w Ht) as Hq.
  rewrite List.Forall_forall in *. intros tm Hin.
  pose proof (Hq tm Hin) as Hn. split; [exact Hn|].
  destruct (every tm) as [p|] eqn:E; [|reflexivity].
  rewrite (Hc tm (clear_sub w tm Hin) p E) in Hn. discriminate.
Qed.

Lemma timed_interval now w :
  0 <= progress (app w) <= 100 -> 0 < expectedMsRef (app w) ->
  startTsRef (app w) = now ->
  Forall (fun tm => isTicker tm = false /\ every tm = None) (timers w) ->
  wellTimed
    (setInterval CbTick 120 now (fun h => setProgressTimer (Some h)) w).
Proof.
  intros Hp He Hs Hq. split; [exact Hp|]. split; [exact He|]. cbn.
  apply Forall_app. split.
  - eapply List.Forall_impl; [|exact Hq]. cbn. intros tm [Hn Hev]. split.
    + intros p E. congruence.
    + intros E. congruence.
  - constructor; [|constructor]. cbn. split.
    + intros q Eq. injection Eq as <-. split; [reflexivity|lra].
    + intros _. rewrite Hs. lra.
Qed.

Lemma timed_begin message e s w :
  0 < e -> tracked w -> wellTimed w -> wellTimed (beginProgress message e s w).
Proof.
  intros He Ht (_ & _ & Hc). unfold beginProgress, seq.
  set (x := setExpectedMs e (setStartTs s (setProgress 0 (setStatusMsg message w)))).
  destruct (clear_keeps x) as (E1 & E2 & E3).
  apply timed_interval.
  - rewrite E1. cbn. lra.
  - rewrite E2. exact He.
  - rewrite E3. reflexivity.
  - apply calm_clear; [exact Ht|].
    change (timers x) with (timers w).
    eapply List.Forall_impl; [|exact Hc]. cbn. intros tm [Ha _] p E.
    exact (proj1 (Ha p E)).
Qed.

Lemma timed_end m t w : wellTimed w -> wellTimed (endProgress m t w).
Proof.
  intros H. unfold endProgress, seq, whenTruthy.
  apply timed_timeout; [discriminate|].
  assert (H1 : wellTimed (setProgress 100 (clearProgressTimer w)))
    by (apply timed_setProgress; [lra | now apply timed_clear]).
  destruct m as [m|]; [destruct (truthy (Some m))|];
    [apply timed_statusMsg| |]; exact H1.
Qed.

Lemma autoSave_clock net u w :
  progress (app (autoSave net u w)) = progress (app w) /\
  expectedMsRef (app (autoSave net u w)) = expectedMsRef (app w) /\
  startTsRef (app (autoSave net u w)) = startTsRef (app w).
Proof.
  unfold autoSave, saveClipDirect, refreshClips.
  destruct net as [[] [] []]; cbn; auto.
Qed.

Lemma timed_finish rev k u net t w :
  wellTimed w -> wellTimed (finish rev k u net t w).
Proof.
  intros H. unfold finish, seq.
  assert (He : wellTimed (endProgress (Some (finalMessage k)) t
                            (setPendingUrl None (setVideoUrl (Some u) w))))
    by (apply timed_end, timed_shown, H).
  revert He.
  generalize (endProgress (Some (finalMessage k)) t
                (setPendingUrl None (setVideoUrl (Some u) w))).
  intros w1 He. destruct rev, k; try exact He.
  destruct (autoSave_timers net u w1) as (E1 & _ & _).
  destruct (autoSave_clock net u w1) as (E2 & E3 & E4).
  exact (timed_frame _ _ E1 E2 E3 E4 He).
Qed.

Lemma timed_complete rev k u net t w :
  wellTimed w -> wellTimed (complete rev k u net t w).
Proof.
  intros H. unfold complete.
  destruct (Qgtb _ 0); [apply timed_timeout; [discriminate|exact H]|].
  now apply timed_finish.
Qed.

Lemma timed_rearm h next w :
  (forall tm, In tm (timers w) -> hasHandle h tm = true ->
              isTicker tm = true -> startTsRef (app w) <= next) ->
  wellTimed w -> wellTimed (rearm h next w).
Proof.
  intros Hn (Hp & He & Hc). split; [exact Hp|]. split; [exact He|].
  unfold rearm. cbn. rewrite List.Forall_forall in *.
  intros t' Hin. apply in_map_iff in Hin as (tm & <- & Hin).
  destruct (Hc tm Hin) as [Ha Hb].
  destruct (hasHandle h tm) eqn:Eh; [|split; assumption].
  split; [exact Ha|]. intros Htk. exact (Hn tm Hin Eh Htk).
Qed.

Lemma tick_bounds s e t : 0 < e -> s <= t ->
  0 <= Qmin ((t - s) / e) 0.995 * 100 <= 100.
Proof.
  intros He Hs. split; [now apply ratio_nonneg|].
  apply Qlt_le_weak, cap_below_100.
Qed.

Lemma timed_fire rev f w : wellTimed w -> wellTimed (fire rev f w).
Proof.
  intros H. unfold fire.
  destruct (List.find _ (timers w)) as [tm|] eqn:Ef; [|exact H].
  destruct (Qle_bool (due tm) (at_ f)) eqn:Ed; [|exact H].
  apply find_some in Ef as [Hin Hh]. apply Qle_bool_iff in Ed.
  pose proof H as (Hp & He & Hc). rewrite List.Forall_forall in Hc.
  destruct (Hc tm Hin) as [Ha Hb].
  assert (H' : let w1 := match every tm with
                         | Some p => rearm (which f) (at_ f + p) w
                         | None => clearTimer (which f) w
                         end in
               wellTimed w1 /\
               startTsRef (app w1) = startTsRef (app w) /\
               expectedMsRef (app w1) = expectedMsRef (app w)).
  { destruct (every tm) as [p|] eqn:Ev; cbn zeta.
    - split; [|split; reflexivity]. apply timed_rearm; [|exact H].
      intros tm' _ _ _. destruct (Ha p eq_refl) as [Htk Hp0].
      specialize (Hb Htk). lra.
    - split; [|split; reflexivity]. now apply timed_clearTimer. }
  cbn zeta in H'. revert H'.
  generalize (match every tm with
              | Some p => rearm (which f) (at_ f + p) w
              | None => clearTimer (which f) w
              end).
  intros w1 (H1 & Es & Ee). unfold isTicker in Hb.
  destruct (callback tm); cbn [runCallback].
  - unfold tick. apply timed_setProgress; [|exact H1].
    rewrite Es, Ee. apply tick_bounds; [exact He|].
    specialize (Hb eq_refl). lra.
  - unfold seq. apply timed_setProgress; [lra|].
    apply timed_statusMsg, H1.
  - now apply timed_finish.
Qed.

Lemma timed_run rev fs : forall w, wellTimed w -> wellTimed (run rev fs w).
Proof.
  induction fs as [|f fs IH]; intros w H; [exact H|].
  change (run rev (f :: fs) w) with (run rev fs (fire rev f w)).
  apply IH, timed_fire, H.
Qed.

Lemma timed_giveUp m w : wellTimed w -> wellTimed (giveUp m w).
Proof.
  intros H. unfold giveUp, seq.
  apply timed_statusMsg, timed_setProgress; [lra|]. now apply timed_clear.
Qed.

Lemma timed_signIn w : wellTimed w -> wellTimed (signInRequired w).
Proof.
  intros H. unfold signInRequired, seq.
  apply timed_busy, timed_statusMsg, timed_setProgress; [lra|].
  apply timed_clear, timed_loginRequired, H.
Qed.

Lemma timed_caught rev w : wellTimed w -> wellTimed (worldOf (caught rev w)).
Proof.
  intros H. destruct rev; cbn [caught worldOf]; [|exact H].
  now apply timed_giveUp.
Qed.

Lemma timed_finally o :
  wellTimed (worldOf o) -> wellTimed (worldOf (finally o)).
Proof. destruct o; intros H; cbn [finally worldOf] in *; apply timed_busy, H. Qed.

Lemma timed_speech rev file env w :
  tracked w -> wellTimed w ->
  wellTimed (worldOf (handleSpeechToVideo rev file env w)).
Proof.
  intros Ht H. unfold handleSpeechToVideo. apply timed_finally.
  assert (H1 : wellTimed
            (run rev (whileFetching env)
               (fetch (post "/api/speech-to-video" [("audio", file)] w)
                  (beginProgress "Processing audio…" 120000 (startedAt env)
                     (setBusy true w))))).
  { apply timed_run, timed_fetch, timed_begin;
      [lra | apply tracked_busy, Ht | apply timed_busy, H]. }
  revert H1. generalize (run rev (whileFetching env)
               (fetch (post "/api/speech-to-video" [("audio", file)] w)
                  (beginProgress "Processing audio…" 120000 (startedAt env)
                     (setBusy true w)))).
  intros w1 H1.
  destruct (fetched env) as [|status [data|]].
  - now apply timed_caught.
  - destruct (status =? 401)%Z; [now apply timed_signIn|].
    assert (H2 : wellTimed (run rev (whileParsing env) w1))
      by now apply timed_run.
    destruct (truthy (video_url data));
      [|apply timed_giveUp, timed_jsonOut, H2].
    assert (H3 : wellTimed
              (run rev (whilePreloading env)
                 (setPendingUrl (Some (default "" (video_url data)))
                    (setStatusMsg "Preparing video…"
                       (setJsonOut (json data)
                          (run rev (whileParsing env) w1))))))
      by (apply timed_run, timed_preparing, H2).
    destruct (preloaded env); [|exact H3].
    now apply timed_complete.
  - destruct (status =? 401)%Z; [now apply timed_signIn|].
    apply timed_caught. now apply timed_run.
Qed.

Lemma timed_stitch rev confirmed env w :
  tracked w -> wellTimed w ->
  wellTimed (worldOf (handleStitchSaved rev confirmed env w)).
Proof.
  intros Ht H. unfold handleStitchSaved.
  destruct confirmed; [|exact H]. cbn [negb]. apply timed_finally.
  assert (H1 : wellTimed
            (run rev (whileFetching env)
               (fetch (post "/api/stitch" [("use_saved", "true")] w)
                  (beginProgress "Stitching saved clips…"
                     (stitchExpected (clipsCount w)) (startedAt env)
                     (setBusy true w))))).
  { apply timed_run, timed_fetch, timed_begin;
      [apply stitchExpected_pos | apply tracked_busy, Ht
      | apply timed_busy, H]. }
  revert H1. generalize (run rev (whileFetching env)
               (fetch (post "/api/stitch" [("use_saved", "true")] w)
                  (beginProgress "Stitching saved clips…"
                     (stitchExpected (clipsCount w)) (startedAt env)
                     (setBusy true w)))).
  intros w1 H1.
  destruct (fetched env) as [|status [data|]].
  - now apply timed_caught.
  - destruct (status =? 401)%Z; [now apply timed_signIn|].
    assert (H2 : wellTimed (run rev (whileParsing env) w1))
      by now apply timed_run.
    destruct (success data); [|apply timed_giveUp, timed_jsonOut, H2].
    assert (H3 : wellTimed
              (run rev (whilePreloading env)
                 (setPendingUrl (Some (stitchedUrl rev data w))
                    (setStatusMsg "Preparing video…"
                       (setJsonOut (json data)
                          (run rev (whileParsing env) w1))))))
      by (apply timed_run, timed_preparing, H2).
    destruct (preloaded env); [|exact H3].
    now apply timed_complete.
  - destruct (status =? 401)%Z; [now apply timed_signIn|].
    apply timed_caught. now apply timed_run.
Qed.

Lemma timed_refresh ok w :
  wellTimed w -> wellTimed (worldOf (refreshClips ok w)).
Proof. intros H. unfold refreshClips. destruct ok; exact H. Qed.

Lemma timed_save net n w :
  wellTimed w -> wellTimed (worldOf (handleSaveLastClip net n w)).
Proof.
  intros H. unfold handleSaveLastClip.
  destruct (truthy (videoUrl (app w))); cbn [negb worldOf]; [|exact H].
  destruct (postOk net); [|exact H].
  apply timed_refresh, timed_store, timed_fetch, H.
Qed.

Lemma timed_clear_clips ans ok w :
  wellTimed w -> wellTimed (worldOf (handleClearClips ans ok w)).
Proof.
  intros H. unfold handleClearClips. destruct ans; [exact H|].
  apply timed_refresh, timed_store, timed_fetch, H.
Qed.

Lemma timed_delete idx ans ok w :
  wellTimed w -> wellTimed (deleteClip idx ans ok w).
Proof.
  intros H. unfold deleteClip.
  destruct (clips (app w) !! idx) as [c|]; [|exact H].
  destruct (truthyTs (ts c)); [|exact H].
  destruct ans as [|[] after]; [exact H| |exact H].
  apply timed_refresh, timed_store, timed_fetch, H.
Qed.

Lemma timed_play idx w : wellTimed w -> wellTimed (playClip idx w).
Proof.
  intros H. unfold playClip. destruct (clips (app w) !! idx); exact H.
Qed.

Lemma timed_drop idx w w' :
  onDrop idx w = Some w' -> wellTimed w -> wellTimed w'.
Proof.
  unfold onDrop. intros E H.
  destruct (dragIndex (app w)) as [i|]; [|now injection E as <-].
  destruct (i =? idx)%nat; [now injection E as <-|].
  destruct (clips (app w) !! i); [|discriminate].
  injection E as <-. exact H.
Qed.

Lemma timed_session ans p :
  wellTimed (world p) -> wellTimed (world (fetchSession ans p)).
Proof.
  intros H. unfold fetchSession.
  destruct ans as [j|]; [destruct (j_authenticated j)|]; exact H.
Qed.

Lemma timed_step rev a p p' :
  perform rev a p = Some p' -> tracked (world p) -> wellTimed (world p) ->
  wellTimed (world p').
Proof.
  intros Hp Ht H.
  destruct a; cbn [perform] in Hp; try (injection Hp as <-).
  - unfold mount.
    destruct rev; [apply timed_session|]; exact H.
  - unfold recorderStopped. destruct (truthy text); exact H.
  - rewrite world_confirmProceed.
    destruct (pendingAudio p); [now apply timed_speech | exact H].
  - exact H.
  - now apply timed_stitch.
  - now apply timed_fire.
  - now apply timed_session.
  - unfold signOut. apply timed_session. exact H.
  - now apply timed_save.
  - now apply timed_clear_clips.
  - now apply timed_delete.
  - now apply timed_play.
  - exact H.
  - exact H.
  - exact H.
  - destruct (onDrop idx (world p)) as [w|] eqn:E; [|discriminate].
    injection Hp as <-. exact (timed_drop _ _ _ E H).
Qed.

Lemma timed_all rev acts :
  forall p p',
    performAll rev acts p = Some p' ->
    tracked (world p) -> wellTimed (world p) ->
    wellTimed (world p').
Proof.
  induction acts as [|a acts IH]; intros p p' Hp Ht H.
  - injection Hp as <-. exact H.
  - cbn [performAll] in Hp.
    destruct (perform rev a p) as [p1|] eqn:E; [|discriminate].
    exact (IH p1 p' Hp (tracked_step rev a p p1 E Ht)
             (timed_step rev a p p1 E Ht H)).
Qed.

(** X16. From a page on which no timer is registered yet, with a progress
    between 0 and 100 and a positive expected duration (as it is mounted),
    every state reached through the handlers and timers of the page, in
    either revision and whatever the clock values and the answers of the
    network, has a progress between 0 and 100: the clamp of the bar width
    never has anything to cut. *)
Theorem progress_is_a_percentage rev acts p p' :
  timers (world p) = [] ->
  0 <= progress (app (world p)) <= 100 ->
  0 < expectedMsRef (app (world p)) ->
  performAll rev acts p = Some p' ->
  0 <= progress (app (world p')) <= 100.
Proof.
  intros Hq Hp He Hacts.
  apply (timed_all rev acts p p' Hacts).
  - unfold tracked. rewrite Hq. repeat split; constructor.
  - unfold wellTimed. rewrite Hq. repeat split; try tauto; constructor.
Qed.

Lemma progress_is_a_percentage_witness :
  timers (world page0) = [] /\
  0 <= progress (app (world page0)) <= 100 /\
  0 < expectedMsRef (app (world page0)) /\
  exists p', performAll Unnamed overlapping page0 = Some p' /\
             0 <= progress (app (world p')) <= 100.
Proof.
  assert (Hp : 0 <= progress (app (world page0)) <= 100)
    by (cbn; lra).
  assert (He : 0 < expectedMsRef (app (world page0))) by reflexivity.
  split; [reflexivity|]. split; [exact Hp|]. split; [exact He|].
  destruct (performAll Unnamed overlapping page0) as [p'|] eqn:E.
  - exists p'. split; [reflexivity|].
    exact (progress_is_a_percentage Unnamed overlapping page0 p'
             eq_refl Hp He E).
  - exfalso. vm_compute in E. discriminate.
Defined.
